(** * xcape: tap/hold key substitution over XRecord and XTest

    A shallow embedding of [xcape.c]: the mapping table, the ledger of
    generated key codes, the per-rule press/release handler [handle_key], the
    XRecord callback [intercept] with its keyboard-group bookkeeping, and the
    configuration parser ([parse_token], [parse_mapping]).

    Conventions of the embedding.
    - The singly linked lists [Key_t] and [KeyMap_t] are Rocq lists, in link
      order; [key_add_key] appends at the tail, as the C loop does.
    - A [KeyMap_t *] handed to [handle_key] points into [self->map]; the
      embedding hands the rule over by value and the loop of [intercept]
      writes the returned rule back at the same position.
    - Every Xlib request sent on the control connection is recorded in a
      trace ([XRequest]); what the server and the clock answer is an input of
      the callback ([Env]).  Nothing is assumed about these answers.
    - The [debug] diagnostics on stdout/stderr are not part of the model. *)

From stdpp Require Import base numbers list strings.
From Stdlib Require Import ZArith Lia Ascii.

Local Open Scope Z_scope.

(** ** Constants of the X headers ([X.h], [record.h]) *)

Definition KeyPress : Z := 2.
Definition KeyRelease : Z := 3.
Definition ButtonPress : Z := 4.
Definition ButtonRelease : Z := 5.
Definition XRecordFromServer : Z := 0.
Definition NoSymbol : Z := 0.

(** [KeyCode] is [unsigned char], [KeySym] is [unsigned long]; only equality
    is ever used on them in the event path. *)
Definition KeyCode := Z.
Definition KeySym := Z.

(** ** [struct timeval] and the [<sys/time.h>] macros used by [handle_key] *)

Record timeval := Timeval { tv_sec : Z; tv_usec : Z }.

(** [timersub(a, b, result)]. *)
Definition timersub (a b : timeval) : timeval :=
  let sec := tv_sec a - tv_sec b in
  let usec := tv_usec a - tv_usec b in
  if usec <? 0 then Timeval (sec - 1) (usec + 1000000) else Timeval sec usec.

(** [timercmp(a, b, <)]. *)
Definition timercmp_lt (a b : timeval) : bool :=
  if tv_sec a =? tv_sec b then tv_usec a <? tv_usec b else tv_sec a <? tv_sec b.

(** A [timeval] as [gettimeofday] returns it and as [main] builds the
    timeout: the microsecond part lies in [0, 10^6). *)
Definition normalized (t : timeval) : Prop := 0 <= tv_usec t < 1000000.

Definition to_usec (t : timeval) : Z := tv_sec t * 1000000 + tv_usec t.

(** ** Internal data types *)

Record KeyMap_t := KeyMap {
  UseKeyCode : bool;
  from_ks : KeySym;
  from_kc : KeyCode;
  to_keys : list KeyCode;
  used : bool;
  pressed : bool;
  mouse : bool;
  down_at : timeval
}.

Record XCape_t := XCape {
  map : list KeyMap_t;
  generated : list KeyCode;
  timeout : timeval;
  intended_group : Z;
  previous_group : Z
}.

(** The requests issued on [ctrl_conn], in program order. *)
Inductive XRequest :=
| XkbGetState
| XTestFakeKeyEvent (keycode : KeyCode) (is_press : bool)
| XFlush
| XkbLockGroup (group : Z).

(** What one invocation of the callback reads from outside: the group
    reported by the first [XkbGetState], the group reported by the one after
    [XkbLockGroup], and the time [gettimeofday] returns to the [handle_key]
    call made for the rule at a given position of the mapping table (each
    such call reads the clock at most once). *)
Record Env := MkEnv {
  group_at_entry : Z;
  group_after_lock : Z;
  gettimeofday : nat -> timeval
}.

(** The argument of the callback: [data->category], [data->data[0]] and
    [data->data[1]]. *)
Record XRecordInterceptData := InterceptData {
  category : Z;
  data0 : Z;
  data1 : KeyCode
}.

(** The callback's state between invocations: [self] and the function-local
    [static Bool mouse_pressed]. *)
Record World := MkWorld {
  self : XCape_t;
  mouse_pressed : bool
}.

(** ** Field updates *)

Definition set_rule_state (key : KeyMap_t) (u p : bool) (t : timeval) : KeyMap_t :=
  {| UseKeyCode := UseKeyCode key; from_ks := from_ks key; from_kc := from_kc key;
     to_keys := to_keys key; used := u; pressed := p; mouse := mouse key;
     down_at := t |}.

Definition set_used (key : KeyMap_t) (u : bool) : KeyMap_t :=
  set_rule_state key u (pressed key) (down_at key).

Definition set_generated (s : XCape_t) (g : list KeyCode) : XCape_t :=
  {| map := map s; generated := g; timeout := timeout s;
     intended_group := intended_group s; previous_group := previous_group s |}.

Definition set_map (s : XCape_t) (m : list KeyMap_t) : XCape_t :=
  {| map := m; generated := generated s; timeout := timeout s;
     intended_group := intended_group s; previous_group := previous_group s |}.

Definition set_groups (s : XCape_t) (intended previous : Z) : XCape_t :=
  {| map := map s; generated := generated s; timeout := timeout s;
     intended_group := intended; previous_group := previous |}.

(** ** [key_add_key] *)

Definition key_add_key (keys : list KeyCode) (key : KeyCode) : list KeyCode :=
  keys ++ [key].

(** The number of [XFlush] requests in a trace. *)
Definition is_flush (r : XRequest) : bool :=
  match r with XFlush => true | _ => false end.

Definition flushes (out : list XRequest) : nat :=
  length (List.filter is_flush out).

(** The requests of a confirmed tap. *)
Definition tap_requests (keys : list KeyCode) : list XRequest :=
  ((fun k => XTestFakeKeyEvent k true) <$> keys)
  ++ ((fun k => XTestFakeKeyEvent k false) <$> keys) ++ [XFlush].

(** ** [handle_key] *)

(** One of the two [for (k = key->to_keys; ...)] loops: a fake key event per
    code, each code recorded in [self->generated]. *)
Fixpoint fake_key_events (is_press : bool) (keys : list KeyCode) (s : XCape_t)
  : XCape_t * list XRequest :=
  match keys with
  | [] => (s, [])
  | k :: rest =>
      let s1 := set_generated s (key_add_key (generated s) k) in
      let '(s2, out) := fake_key_events is_press rest s1 in
      (s2, XTestFakeKeyEvent k is_press :: out)
  end.

Definition handle_key (s : XCape_t) (key : KeyMap_t) (mouse_pressed : bool)
    (key_event : Z) (now : timeval) : XCape_t * KeyMap_t * list XRequest :=
  if key_event =? KeyPress then
    let key1 := set_rule_state key (used key) true now in
    let key2 := if mouse_pressed then set_used key1 true else key1 in
    (s, key2, [])
  else
    let '(s', out) :=
      if negb (used key) then
        let timev := timersub now (down_at key) in
        if timercmp_lt timev (timeout s) then
          let '(s1, presses) := fake_key_events true (to_keys key) s in
          let '(s2, releases) := fake_key_events false (to_keys key) s1 in
          (s2, presses ++ releases ++ [XFlush])
        else (s, [])
      else (s, []) in
    (s', set_rule_state key false false (down_at key), out).

(** ** [intercept] *)

(** The ledger scan at the top of [intercept]: unlink the first entry whose
    key equals [key_code]; [None] when the scan reaches the end of the list. *)
Fixpoint consume (key_code : KeyCode) (g : list KeyCode) : option (list KeyCode) :=
  match g with
  | [] => None
  | k :: rest =>
      if k =? key_code then Some rest
      else match consume key_code rest with
           | Some rest' => Some (k :: rest')
           | None => None
           end
  end.

(** The fields of a rule that are never written after parsing. *)
Definition same_rule (km km' : KeyMap_t) : Prop :=
  UseKeyCode km' = UseKeyCode km /\ from_ks km' = from_ks km
  /\ from_kc km' = from_kc km /\ to_keys km' = to_keys km.

(** The Xlib lookups the program makes on its display connection:
    [XkbKeycodeToKeysym(dpy, key_code, 0, 0)], [XStringToKeysym(name)] and
    [XKeysymToKeycode(dpy, ks)].  They read the client-side keyboard
    description and keysym table, which the program never refreshes. *)
Class Xlib := {
  XkbKeycodeToKeysym : KeyCode -> KeySym;
  XStringToKeysym : string -> KeySym;
  XKeysymToKeycode : KeySym -> KeyCode
}.

(** [strtoul key] is the value [strtoul(key, NULL, 0)] returns, together with
    [errno] after the call. *)
Class Libc := {
  strtoul : string -> Z * Z
}.

(** While a button is held, every pressed rule is already used. *)
Definition held_means_used (w : World) : Prop :=
  mouse_pressed w = true ->
  forall i km, map (self w) !! i = Some km -> pressed km = true -> used km = true.

(** A rule that is not pressed is not used. *)
Definition idle_means_unused (w : World) : Prop :=
  forall i km, map (self w) !! i = Some km -> pressed km = false -> used km = false.

Section Callback.

Context `{Xlib}.

(** The condition of the [if] in the rule loop. *)
Definition is_trigger (km : KeyMap_t) (key_code : KeyCode) : bool :=
  (negb (UseKeyCode km) && (XkbKeycodeToKeysym key_code =? from_ks km))
  || (UseKeyCode km && (key_code =? from_kc km)).

(** The body of [for (km = self->map; km != NULL; km = km->next)] for the
    rule at position [pos]. *)
Definition rule_step (env : Env) (mouse_pressed : bool) (key_event : Z)
    (key_code : KeyCode) (pos : nat) (s : XCape_t) (km : KeyMap_t)
  : XCape_t * KeyMap_t * list XRequest :=
  if is_trigger km key_code then
    handle_key s km mouse_pressed key_event (gettimeofday env pos)
  else if pressed km && ((key_event =? KeyPress) || (key_event =? ButtonPress)) then
    (s, set_used km true, [])
  else (s, km, []).

Fixpoint rule_loop (env : Env) (mouse_pressed : bool) (key_event : Z)
    (key_code : KeyCode) (pos : nat) (s : XCape_t) (m : list KeyMap_t)
  : XCape_t * list KeyMap_t * list XRequest :=
  match m with
  | [] => (s, [], [])
  | km :: rest =>
      let '(s1, km', out) := rule_step env mouse_pressed key_event key_code pos s km in
      let '(s2, rest', out') :=
        rule_loop env mouse_pressed key_event key_code (S pos) s1 rest in
      (s2, km' :: rest', out ++ out')
  end.

(** The tail of [intercept] from [if (self->previous_group != current_group)]
    to the label [exit]. *)
Definition track_group (env : Env) (s : XCape_t) : XCape_t * list XRequest :=
  let current_group := group_at_entry env in
  let intended :=
    if previous_group s =? current_group then intended_group s else current_group in
  (set_groups s intended (group_after_lock env),
   [XkbLockGroup intended; XkbGetState]).

(** [mouse_pressed] after the [if (key_event == ButtonPress) ... else if
    (key_event == ButtonRelease) ...] of [intercept]. *)
Definition mouse_pressed_after (w : World) (data : XRecordInterceptData) : bool :=
  if data0 data =? ButtonPress then true
  else if data0 data =? ButtonRelease then false
  else mouse_pressed w.

Definition intercept (w : World) (data : XRecordInterceptData) (env : Env)
  : World * list XRequest :=
  let s := self w in
  if category data =? XRecordFromServer then
    let key_event := data0 data in
    let key_code := data1 data in
    match consume key_code (generated s) with
    | Some rest =>
        (* goto exit *)
        (MkWorld (set_generated s rest) (mouse_pressed w), [XkbGetState])
    | None =>
        let mouse_pressed' := mouse_pressed_after w data in
        let '(s1, m', out) :=
          rule_loop env mouse_pressed' key_event key_code 0%nat s (map s) in
        let '(s2, out') := track_group env (set_map s1 m') in
        (MkWorld s2 mouse_pressed', XkbGetState :: out ++ out')
    end
  else
    let '(s2, out') := track_group env s in
    (MkWorld s2 (mouse_pressed w), XkbGetState :: out').

(** The callback run over a sequence of deliveries. *)
Fixpoint run (w : World) (inputs : list (XRecordInterceptData * Env))
  : World * list XRequest :=
  match inputs with
  | [] => (w, [])
  | (data, env) :: rest =>
      let '(w1, out) := intercept w data env in
      let '(w2, out') := run w1 rest in
      (w2, out ++ out')
  end.

(** The next state of a rule after one pass of the loop, spelled out: the
    second component of [rule_step] (lemma [rule_step_next]). *)
Definition rule_next (env : Env) (mp : bool) (key_event : Z) (key_code : KeyCode)
    (pos : nat) (km : KeyMap_t) : KeyMap_t :=
  if is_trigger km key_code then
    if key_event =? KeyPress
    then set_rule_state km (mp || used km) true (gettimeofday env pos)
    else set_rule_state km false false (down_at km)
  else if pressed km && ((key_event =? KeyPress) || (key_event =? ButtonPress))
  then set_used km true
  else km.

(** ** Vocabulary for statements about event sequences *)

(** The event gets past the ledger scan and into the rule loop: it is a
    server event and no ledger entry carries its code. *)
Definition delivered (w : World) (data : XRecordInterceptData) : bool :=
  (category data =? XRecordFromServer)
  && match consume (data1 data) (generated (self w)) with
     | None => true
     | Some _ => false
     end.

(** The event's code satisfies the trigger test of the rule at [pos]. *)
Definition trigger_of (pos : nat) (w : World) (data : XRecordInterceptData) : bool :=
  match map (self w) !! pos with
  | Some km => is_trigger km (data1 data)
  | None => false
  end.

Definition is_press (data : XRecordInterceptData) : bool :=
  (data0 data =? KeyPress) || (data0 data =? ButtonPress).

(** A delivered key or button press that is not the trigger of the rule at
    [pos]: the event that takes the [else if] branch of the loop once the
    rule is pressed. *)
Definition other_press (pos : nat) (w : World) (data : XRecordInterceptData) : bool :=
  delivered w data && negb (trigger_of pos w data) && is_press data.

(** A delivered event on which the loop calls [handle_key] for the rule at
    [pos]. *)
Definition trigger_event (pos : nat) (w : World) (data : XRecordInterceptData) : bool :=
  delivered w data && trigger_of pos w data.

(** Such an event with [key_event != KeyPress]: [handle_key] takes its
    release branch. *)
Definition release_event (pos : nat) (w : World) (data : XRecordInterceptData) : bool :=
  trigger_event pos w data && negb (data0 data =? KeyPress).

(** Neither a delivered press of any key or button nor a delivered event
    of the rule's own trigger. *)
Definition quiet_for (pos : nat) (w : World) (data : XRecordInterceptData) : bool :=
  negb (delivered w data && (trigger_of pos w data || is_press data)).

Definition no_release_for (pos : nat) (w : World) (data : XRecordInterceptData)
  : bool :=
  negb (release_event pos w data).

Definition no_trigger_event_for (pos : nat) (w : World)
    (data : XRecordInterceptData) : bool :=
  negb (trigger_event pos w data).

(** [P] holds of every delivery of [inputs], each taken in the state the
    callback is in when it arrives. *)
Fixpoint along (P : World -> XRecordInterceptData -> bool) (w : World)
    (inputs : list (XRecordInterceptData * Env)) : bool :=
  match inputs with
  | [] => true
  | (data, env) :: rest => P w data && along P (intercept w data env).1 rest
  end.

(** The state of the callback after a sequence of deliveries. *)
Definition state_after (w : World) (inputs : list (XRecordInterceptData * Env))
  : World :=
  (run w inputs).1.

(** The requests issued by the pass of the rule loop for the rule at [pos],
    on an event that reaches the loop. *)
Definition rule_requests (w : World) (data : XRecordInterceptData) (env : Env)
    (pos : nat) : list XRequest :=
  match map (self w) !! pos with
  | Some km =>
      (rule_step env (mouse_pressed_after w data) (data0 data) (data1 data)
         pos (self w) km).2
  | None => []
  end.

(** The trace of an invocation that reaches the rule loop, pass by pass: the
    group query at entry, the requests of the passes in table order, the
    group re-assertion and the second group query (lemma [intercept_trace]). *)
Definition passes_trace (w : World) (data : XRecordInterceptData) (env : Env)
  : list XRequest :=
  XkbGetState
    :: concat (rule_requests w data env <$> seq 0 (length (map (self w))))
    ++ [XkbLockGroup (intended_group (self (intercept w data env).1)); XkbGetState].

End Callback.

(** ** The configuration parser *)

(** [strsep(&p, delim)] with a one-character delimiter set, on a non-NULL
    [p]: the token up to the first delimiter, and the new value of [p]
    ([None] is [NULL]: no delimiter was found). *)
Fixpoint strsep (delim : Ascii.ascii) (p : string) : string * option string :=
  match p with
  | EmptyString => (EmptyString, None)
  | String c rest =>
      if Ascii.eqb c delim then (EmptyString, Some rest)
      else let '(tok, p') := strsep delim rest in (String c tok, p')
  end.

(** The tokens that the loop [for (;;) { tok = strsep(&p, delim); if (tok ==
    NULL) break; ... }] visits, in order. *)
Fixpoint strsep_all (delim : Ascii.ascii) (p : string) : list string :=
  match p with
  | EmptyString => [EmptyString]
  | String c rest =>
      if Ascii.eqb c delim then EmptyString :: strsep_all delim rest
      else match strsep_all delim rest with
           | tok :: toks => String c tok :: toks
           | [] => [String c EmptyString]
           end
  end.

(** [long parsed_code = strtoul(...)]: the conversion of an [unsigned long]
    to [long] on an LP64 target. *)
Definition long_of_ulong (u : Z) : Z :=
  if u <? 2 ^ 63 then u else u - 2 ^ 64.

(** The cast [(KeyCode) parsed_code]. *)
Definition KeyCode_of_long (x : Z) : KeyCode := x mod 256.

(** [calloc(1, sizeof(KeyMap_t))]. *)
Definition calloc_KeyMap : KeyMap_t :=
  {| UseKeyCode := false; from_ks := 0; from_kc := 0; to_keys := [];
     used := false; pressed := false; mouse := false; down_at := Timeval 0 0 |}.

Definition set_from (km : KeyMap_t) (by_code : bool) (ks : KeySym) (kc : KeyCode)
    (keys : list KeyCode) : KeyMap_t :=
  {| UseKeyCode := by_code; from_ks := ks; from_kc := kc; to_keys := keys;
     used := used km; pressed := pressed km; mouse := mouse km;
     down_at := down_at km |}.

Section Parser.

Context `{Xlib} `{Libc}.

(** The test shared by [keysym_from_keycode] and the substitute loop:
    [errno == 0 && parsed_code <= 255 && XkbKeycodeToKeysym(...) != NoSymbol]. *)
Definition valid_keycode (parsed_code errno : Z) : bool :=
  (errno =? 0) && (parsed_code <=? 255)
  && negb (XkbKeycodeToKeysym (KeyCode_of_long parsed_code) =? NoSymbol).

(** A failure only prints [Invalid keycode] and returns; [km] is left as it
    was. *)
Definition keysym_from_keycode (key : string) (km : KeyMap_t) : KeyMap_t :=
  let '(u, errno) := strtoul key in
  let parsed_code := long_of_ulong u in
  if valid_keycode parsed_code errno then
    set_from km true (from_ks km) (KeyCode_of_long parsed_code) (to_keys km)
  else km.

(** A failure only prints [Invalid key] and returns; [km] is left as it
    was. *)
Definition keysym_from_string (from : string) (km : KeyMap_t) : KeyMap_t :=
  let ks := XStringToKeysym from in
  if ks =? NoSymbol then km
  else set_from km false ks (from_kc km) [].

(** Whether the trigger part of an entry resolves: the condition under which
    [keysym_from_keycode], respectively [keysym_from_string], assigns the
    trigger instead of printing [Invalid keycode] or [Invalid key]. *)
Definition trigger_resolves (from : string) : bool :=
  match from with
  | String "#"%char from' =>
      let '(u, errno) := strtoul from' in
      valid_keycode (long_of_ulong u) errno
  | _ => negb (XStringToKeysym from =? NoSymbol)
  end.

(** One substitute of the [for (;;)] loop of [parse_token]: the key code, or
    [None] on the paths that [return NULL]. *)
Definition substitute_code (key : string) : option KeyCode :=
  match key with
  | String "#"%char key' =>
      let '(u, errno) := strtoul key' in
      let parsed_code := long_of_ulong u in
      if valid_keycode parsed_code errno then Some (KeyCode_of_long parsed_code)
      else None
  | _ =>
      let ks := XStringToKeysym key in
      if ks =? NoSymbol then None
      else
        let code := XKeysymToKeycode ks in
        if code =? 0 then None else Some code
  end.

Fixpoint substitute_loop (keys : list string) (km : KeyMap_t) : option KeyMap_t :=
  match keys with
  | [] => Some km
  | key :: rest =>
      match substitute_code key with
      | None => None
      | Some code =>
          substitute_loop rest
            (set_from km (UseKeyCode km) (from_ks km) (from_kc km)
               (key_add_key (to_keys km) code))
      end
  end.

Definition parse_token (token : string) : option KeyMap_t :=
  match strsep "="%char token with
  | (_, None) => None
  | (from, Some to) =>
      let km := calloc_KeyMap in
      let km1 :=
        match from with
        | String "#"%char from' => keysym_from_keycode from' km
        | _ => keysym_from_string from km
        end in
      substitute_loop (strsep_all "|"%char to) km1
  end.

(** The loop of [parse_mapping] over the tokens: a token that parses is
    linked at the tail, any other is passed over. *)
Fixpoint link_tokens (tokens : list string) : list KeyMap_t :=
  match tokens with
  | [] => []
  | token :: rest =>
      match parse_token token with
      | Some nkm => nkm :: link_tokens rest
      | None => link_tokens rest
      end
  end.

Definition parse_mapping (mapping : string) : list KeyMap_t :=
  link_tokens (strsep_all ";"%char mapping).

End Parser.

(** ** Start-up state, as [main] leaves it *)

(** The [-t] option: [tv_sec = ms / 1000], [tv_usec = (ms % 1000) * 1000],
    for [ms > 0]; C division and remainder agree with [Z.quot] and [Z.rem]. *)
Definition timeout_of_ms (ms : Z) : timeval :=
  Timeval (Z.quot ms 1000) (Z.rem ms 1000 * 1000).

Definition default_timeout : timeval := Timeval 0 500000.

(** [self] after the initialisation in [main]: an empty ledger, the parsed
    table, the group read from the server.  [previous_group] is not assigned
    by [main] ([self] comes from [malloc]), so it is a parameter here. *)
Definition startup (m : list KeyMap_t) (t : timeval) (group previous : Z) : World :=
  MkWorld {| map := m; generated := []; timeout := t;
             intended_group := group; previous_group := previous |} false.

(** ** A concrete keyboard for the worked examples *)

Module Demo.

(** Keysyms of [keysymdef.h] and the evdev key codes of a PC keyboard. *)
Definition XK_Escape : KeySym := 65307.
Definition XK_Control_L : KeySym := 65507.
Definition XK_Super_L : KeySym := 65515.
Definition XK_a : KeySym := 97.

Definition kc_Escape : KeyCode := 9.
Definition kc_Control_L : KeyCode := 37.
Definition kc_a : KeyCode := 38.
Definition kc_Super_L : KeyCode := 133.

Definition keysym_of_code (c : KeyCode) : KeySym :=
  if c =? kc_Escape then XK_Escape
  else if c =? kc_Control_L then XK_Control_L
  else if c =? kc_a then XK_a
  else if c =? kc_Super_L then XK_Super_L
  else NoSymbol.

Definition keysym_of_name (name : string) : KeySym :=
  if String.eqb name "Escape" then XK_Escape
  else if String.eqb name "Control_L" then XK_Control_L
  else if String.eqb name "a" then XK_a
  else if String.eqb name "Super_L" then XK_Super_L
  else NoSymbol.

Definition code_of_keysym (ks : KeySym) : KeyCode :=
  if ks =? XK_Escape then kc_Escape
  else if ks =? XK_Control_L then kc_Control_L
  else if ks =? XK_a then kc_a
  else if ks =? XK_Super_L then kc_Super_L
  else 0.

(** Decimal digits only, which is all the examples use. *)
Fixpoint decimal (acc : Z) (digits : string) : Z :=
  match digits with
  | EmptyString => acc
  | String c rest =>
      let d := Z.of_nat (nat_of_ascii c) - 48 in
      if (0 <=? d) && (d <=? 9) then decimal (10 * acc + d) rest else acc
  end.

#[export] Instance xlib : Xlib :=
  {| XkbKeycodeToKeysym := keysym_of_code;
     XStringToKeysym := keysym_of_name;
     XKeysymToKeycode := code_of_keysym |}.

#[export] Instance libc : Libc :=
  {| strtoul := fun key => (decimal 0 key, 0) |}.

Definition key_press (c : KeyCode) : XRecordInterceptData :=
  InterceptData XRecordFromServer KeyPress c.
Definition key_release (c : KeyCode) : XRecordInterceptData :=
  InterceptData XRecordFromServer KeyRelease c.
Definition button_press (b : Z) : XRecordInterceptData :=
  InterceptData XRecordFromServer ButtonPress b.
Definition button_release (b : Z) : XRecordInterceptData :=
  InterceptData XRecordFromServer ButtonRelease b.

(** The clock reads [ms] milliseconds past second 0, for [ms] below 1000,
    and the server reports group 0 throughout. *)
Definition at_ms (ms : Z) : Env :=
  MkEnv 0 0 (fun _ => Timeval 0 (ms * 1000)).

(** The program started with [-e mapping] and the default timeout. *)
Definition started (mapping : string) : World :=
  startup (parse_mapping mapping) default_timeout 0 0.

End Demo.

(** ** The rest of the program: [main] and further vocabulary *)

(** The key codes of the fake key events of a trace, in order. *)
Fixpoint fake_codes (out : list XRequest) : list KeyCode :=
  match out with
  | [] => []
  | XTestFakeKeyEvent k _ :: rest => k :: fake_codes rest
  | _ :: rest => fake_codes rest
  end.

Definition is_button (data : XRecordInterceptData) : bool :=
  (data0 data =? ButtonPress) || (data0 data =? ButtonRelease).

(** The tokens of [strsep_all] put together again, the delimiter between
    them. *)
Fixpoint join_tokens (delim : Ascii.ascii) (toks : list string) : string :=
  match toks with
  | [] => EmptyString
  | [tok] => tok
  | tok :: rest => tok +:+ String delim (join_tokens delim rest)
  end.

Definition EXIT_SUCCESS : Z := 0.
Definition EXIT_FAILURE : Z := 1.

(** [atoi(optarg)]. *)
Class LibcAtoi := {
  atoi : string -> Z
}.

(** What the option loop of [main] sets: [self->foreground], [self->debug],
    the local [mapping] and [self->timeout]. *)
Record Options := MkOptions {
  opt_foreground : bool;
  opt_debug : bool;
  opt_mapping : string;
  opt_timeout : timeval
}.

Definition default_mapping : string := "Control_L=Escape".

(** The assignments of [main] before the option loop. *)
Definition initial_options : Options :=
  MkOptions false false default_mapping default_timeout.

(** What [main] finds when it sets up: whether an argument is left over
    ([optind < argc]), the results of the set-up calls in the order [main]
    makes them, the group the first [XkbGetState] reports, and the value the
    uninitialised [previous_group] happens to hold. *)
Record Setup := MkSetup {
  leftover_argument : bool;
  XInitThreads_ok : bool;
  data_conn_ok : bool;
  ctrl_conn_ok : bool;
  XTEST_ok : bool;
  XRecordQueryVersion_ok : bool;
  XkbQueryExtension_ok : bool;
  XRecordCreateContext_ok : bool;
  XRecordEnableContext_ok : bool;
  server_group : Z;
  malloc_previous_group : Z
}.

(** How far [main] gets: it leaves with an exit status before the recording
    starts, it calls [XkbGetState] on a [NULL] connection, or it enables the
    record context and the callback starts from [w]. *)
Inductive MainResult :=
| Exited (status : Z)
| NullDisplay
| Recording (foreground debug : bool) (w : World).

Section Main.

Context `{Xlib} `{Libc} `{LibcAtoi}.

(** The [while ((ch = getopt(...)) != -1) switch (ch)] loop, over the options
    as [getopt] hands them out ([ch], [optarg]); [inr] is a [return] from
    [main] inside the loop. *)
Fixpoint option_loop (opts : list (Ascii.ascii * string)) (o : Options)
  : Options + Z :=
  match opts with
  | [] => inl o
  | (ch, optarg) :: rest =>
      if Ascii.eqb ch "d" then
        (* no break: -d implies -f *)
        option_loop rest (MkOptions true true (opt_mapping o) (opt_timeout o))
      else if Ascii.eqb ch "f" then
        option_loop rest (MkOptions true (opt_debug o) (opt_mapping o) (opt_timeout o))
      else if Ascii.eqb ch "e" then
        option_loop rest (MkOptions (opt_foreground o) (opt_debug o) optarg (opt_timeout o))
      else if Ascii.eqb ch "t" then
        let ms := atoi optarg in
        if 0 <? ms then
          option_loop rest
            (MkOptions (opt_foreground o) (opt_debug o) (opt_mapping o) (timeout_of_ms ms))
        else inr EXIT_FAILURE
      else inr EXIT_SUCCESS
  end.

(** [main] up to [XRecordEnableContext]: the option loop, the checks that
    end the program, the parsing of the mapping and the initial state.  The
    calls whose results [main] ignores ([daemon], the signal mask, the thread
    for [sig_handler]) are left out. *)
Definition main (opts : list (Ascii.ascii * string)) (setup : Setup) : MainResult :=
  match option_loop opts initial_options with
  | inr status => Exited status
  | inl o =>
      if leftover_argument setup then Exited EXIT_SUCCESS
      else if negb (XInitThreads_ok setup) then Exited EXIT_FAILURE
      else if negb (data_conn_ok setup) then NullDisplay
      else if negb (ctrl_conn_ok setup) then Exited EXIT_FAILURE
      else if negb (XTEST_ok setup) then Exited EXIT_FAILURE
      else if negb (XRecordQueryVersion_ok setup) then Exited EXIT_FAILURE
      else if negb (XkbQueryExtension_ok setup) then Exited EXIT_FAILURE
      else
        match parse_mapping (opt_mapping o) with
        | [] => Exited EXIT_FAILURE
        | m =>
            if negb (XRecordCreateContext_ok setup) then Exited EXIT_FAILURE
            else if negb (XRecordEnableContext_ok setup) then Exited EXIT_FAILURE
            else
              Recording (opt_foreground o) (opt_debug o)
                (startup m (opt_timeout o) (server_group setup)
                   (malloc_previous_group setup))
        end
  end.

(** No delivered button event. *)
Definition no_button_event (w : World) (data : XRecordInterceptData) : bool :=
  negb (delivered w data && is_button data).

(** Every callback of the sequence finds at its entry the group that the
    program stored last. *)
Fixpoint group_undisturbed (w : World) (inputs : list (XRecordInterceptData * Env))
  : bool :=
  match inputs with
  | [] => true
  | (data, env) :: rest =>
      (group_at_entry env =? previous_group (self w))
      && group_undisturbed (intercept w data env).1 rest
  end.

End Main.

(** What the option loop keeps true of the options it has set. *)
Definition options_ok (o : Options) : Prop :=
  normalized (opt_timeout o) /\ 0 < to_usec (opt_timeout o)
  /\ (opt_debug o = true -> opt_foreground o = true).

(** ** Further inputs for the worked examples *)

Module DemoMain.

(** [atoi] on strings of decimal digits, and a set-up in which every call
    succeeds. *)
#[export] Instance libc_atoi : LibcAtoi :=
  {| atoi := Demo.decimal 0 |}.

Definition all_ok : Setup :=
  MkSetup false true true true true true true true true 0 0.

(** A keyboard on which key code 255 has a keysym, and a [strtoul] that
    reads [-1] as [ULONG_MAX]. *)
Definition xlib_255 : Xlib :=
  {| XkbKeycodeToKeysym := fun c => if c =? 255 then 269025153 else Demo.keysym_of_code c;
     XStringToKeysym := Demo.keysym_of_name;
     XKeysymToKeycode := Demo.code_of_keysym |}.

Definition libc_minus_one : Libc :=
  {| strtoul := fun key =>
       if String.eqb key "-1" then (2 ^ 64 - 1, 0) else (Demo.decimal 0 key, 0) |}.

End DemoMain.

(** * Properties *)

(** ** Time arithmetic *)

Lemma timersub_normalized a b :
  normalized a -> normalized b -> normalized (timersub a b).
Proof.
  unfold normalized, timersub. intros Ha Hb.
  destruct (Z.ltb_spec (tv_usec a - tv_usec b) 0); simpl; lia.
Qed.

Lemma to_usec_timersub a b :
  to_usec (timersub a b) = to_usec a - to_usec b.
Proof.
  unfold to_usec, timersub.
  destruct (Z.ltb_spec (tv_usec a - tv_usec b) 0); simpl; lia.
Qed.

Lemma timercmp_lt_usec a b :
  normalized a -> normalized b ->
  timercmp_lt a b = (to_usec a <? to_usec b).
Proof.
  unfold normalized, timercmp_lt, to_usec. intros Ha Hb.
  destruct (Z.eqb_spec (tv_sec a) (tv_sec b)) as [E|E].
  - rewrite E. destruct (Z.ltb_spec (tv_usec a) (tv_usec b));
      symmetry; [apply Z.ltb_lt | apply Z.ltb_ge]; lia.
  - destruct (Z.ltb_spec (tv_sec a) (tv_sec b));
      symmetry; [apply Z.ltb_lt | apply Z.ltb_ge]; lia.
Qed.

(** The test of [handle_key] is the comparison of the elapsed microseconds
    with the timeout, strictly. *)
Lemma elapsed_test now down t :
  normalized now -> normalized down -> normalized t ->
  timercmp_lt (timersub now down) t = (to_usec now - to_usec down <? to_usec t).
Proof.
  intros Hn Hd Ht.
  rewrite timercmp_lt_usec by auto using timersub_normalized.
  by rewrite to_usec_timersub.
Qed.

Lemma timeout_of_ms_normalized ms : 0 < ms -> normalized (timeout_of_ms ms).
Proof.
  intros Hms. unfold normalized, timeout_of_ms; simpl.
  pose proof (Z.rem_bound_pos ms 1000). lia.
Qed.

Lemma timeout_of_ms_usec ms : 0 < ms -> to_usec (timeout_of_ms ms) = ms * 1000.
Proof.
  intros Hms. unfold to_usec, timeout_of_ms; simpl.
  pose proof (Z.quot_rem' ms 1000). lia.
Qed.

(** ** The ledger *)

Lemma consume_None key_code g :
  consume key_code g = None <-> key_code ∉ g.
Proof.
  induction g as [|k g IH]; simpl.
  - split; [intros _; apply not_elem_of_nil | done].
  - rewrite not_elem_of_cons. destruct (Z.eqb_spec k key_code) as [->|Hne].
    + split; [done | intros [? _]; done].
    + destruct (consume key_code g) eqn:E.
      * split; [done |]. intros [_ Hg]. by apply IH in Hg.
      * split; [| done]. intros _. split; [congruence | by apply IH].
Qed.

Lemma consume_Some key_code g g' :
  consume key_code g = Some g' <->
  exists older newer,
    g = older ++ key_code :: newer /\ (key_code ∉ older) /\ g' = older ++ newer.
Proof.
  revert g'. induction g as [|k g IH]; intros g'; simpl.
  - split; [done |]. intros (older & newer & E & _). by destruct older.
  - destruct (Z.eqb_spec k key_code) as [->|Hne].
    + split.
      * intros [= <-]. exists [], g. split_and!; [done | apply not_elem_of_nil | done].
      * intros [older [newer [E [Hnot ->]]]]. destruct older as [|o older].
        -- simpl in E. by injection E as ->.
        -- injection E as -> _. exfalso. apply Hnot. left.
    + destruct (consume key_code g) as [r|] eqn:E.
      * split.
        -- intros [= <-]. destruct (proj1 (IH r) eq_refl) as [older [newer [-> [Hnot ->]]]].
           exists (k :: older), newer. split_and!; [done | | done].
           rewrite not_elem_of_cons. split; congruence.
        -- intros [older [newer [Eg [Hnot ->]]]]. destruct older as [|o older].
           ++ simpl in Eg. injection Eg as -> _. done.
           ++ injection Eg as -> Eg. apply not_elem_of_cons in Hnot as [_ Hnot].
              f_equal. simpl. f_equal.
              assert (Some r = Some (older ++ newer)) as [= ->]; [| done].
              apply IH. eauto.
      * split; [done |]. intros [older [newer [Eg [Hnot ->]]]].
        destruct older as [|o older].
        -- simpl in Eg. injection Eg as -> _. done.
        -- injection Eg as -> Eg. apply not_elem_of_cons in Hnot as [_ Hnot].
           assert (None = Some (older ++ newer)) as [=]. apply IH. eauto.
Qed.

Lemma consume_elem_of key_code g :
  key_code ∈ g -> exists g', consume key_code g = Some g'.
Proof.
  intros Hin. destruct (consume key_code g) eqn:E; [eauto |].
  by apply consume_None in E.
Qed.

(** ** [handle_key] *)

Lemma fake_key_events_spec is_press keys s :
  fake_key_events is_press keys s =
  (set_generated s (generated s ++ keys),
   (fun k => XTestFakeKeyEvent k is_press) <$> keys).
Proof.
  revert s. induction keys as [|k keys IH]; intros s; simpl.
  - rewrite app_nil_r. by destruct s.
  - rewrite IH. simpl. unfold key_add_key. by rewrite <- app_assoc.
Qed.

Lemma handle_key_press s key mp now :
  handle_key s key mp KeyPress now =
  (s, set_rule_state key (mp || used key) true now, []).
Proof. unfold handle_key. simpl. by destruct mp. Qed.

Lemma handle_key_release s key mp key_event now :
  key_event <> KeyPress ->
  handle_key s key mp key_event now =
  if negb (used key) && timercmp_lt (timersub now (down_at key)) (timeout s)
  then (set_generated s (generated s ++ to_keys key ++ to_keys key),
        set_rule_state key false false (down_at key),
        tap_requests (to_keys key))
  else (s, set_rule_state key false false (down_at key), []).
Proof.
  intros Hne. unfold handle_key.
  destruct (Z.eqb_spec key_event KeyPress) as [|_]; [done |].
  destruct (used key); simpl; [done |].
  destruct (timercmp_lt _ _); [| done].
  rewrite !fake_key_events_spec. simpl. by rewrite <- app_assoc.
Qed.

(** ** The rule loop *)

Lemma same_rule_refl km : same_rule km km.
Proof. by repeat split. Qed.

Lemma same_rule_trans km1 km2 km3 :
  same_rule km1 km2 -> same_rule km2 km3 -> same_rule km1 km3.
Proof. unfold same_rule. intuition congruence. Qed.

Section Engine.

Context `{Xlib}.

Lemma rule_next_same env mp ke kc pos km : same_rule km (rule_next env mp ke kc pos km).
Proof.
  unfold rule_next.
  repeat match goal with |- context [if ?b then _ else _] => destruct b end;
    by repeat split.
Qed.

(** A pass of the loop leaves [self] alone except for the ledger, to which
    it may append; the rule's next state and the requests do not depend on
    the ledger. *)
Lemma rule_step_next env mp ke kc pos s km :
  exists added out,
    rule_step env mp ke kc pos s km =
    (set_generated s (generated s ++ added), rule_next env mp ke kc pos km, out)
    /\ forall s', timeout s' = timeout s ->
         rule_step env mp ke kc pos s' km =
         (set_generated s' (generated s' ++ added), rule_next env mp ke kc pos km, out).
Proof.
  assert (Hid : forall s0, s0 = set_generated s0 (generated s0 ++ [])).
  { intros s0. rewrite app_nil_r. by destruct s0. }
  unfold rule_step, rule_next.
  destruct (is_trigger km kc).
  - destruct (Z.eqb_spec ke KeyPress) as [->|Hne].
    + exists [], []. split; [| intros s' _]; rewrite handle_key_press, <- Hid;
        by rewrite orb_comm.
    + destruct (negb (used km) &&
                timercmp_lt (timersub (gettimeofday env pos) (down_at km)) (timeout s))
        eqn:E.
      * exists (to_keys km ++ to_keys km), (tap_requests (to_keys km)).
        split; [| intros s' Ht]; rewrite handle_key_release by done;
          [| rewrite Ht]; by rewrite E.
      * exists [], []. split; [| intros s' Ht]; rewrite handle_key_release by done;
          [| rewrite Ht]; rewrite E; by rewrite <- Hid.
  - destruct (pressed km && _); exists [], []; split; try intros s' _;
      by rewrite <- Hid.
Qed.

Lemma imap_as_seq {A B} (F : nat -> A -> B) (G : nat -> B) (l : list A) :
  (forall i x, l !! i = Some x -> F i x = G i) ->
  imap F l = G <$> seq 0 (length l).
Proof.
  revert F G. induction l as [|x l IH]; intros F G HFG; [done |].
  simpl. f_equal; [by apply HFG |].
  rewrite <- fmap_S_seq, <- list_fmap_compose.
  apply IH. intros i y Hi. by apply HFG.
Qed.

(** The loop as a whole: the ledger grows by what the passes append, each
    rule moves to its [rule_next], and the requests are those of the passes
    in table order. *)
Lemma rule_loop_spec env mp ke kc m :
  forall pos s, exists added,
    rule_loop env mp ke kc pos s m =
    (set_generated s (generated s ++ added),
     imap (fun i km => rule_next env mp ke kc (pos + i) km) m,
     concat (imap (fun i km => (rule_step env mp ke kc (pos + i) s km).2) m)).
Proof.
  induction m as [|km m IH]; intros pos s.
  - exists []. simpl. rewrite app_nil_r. by destruct s.
  - destruct (rule_step_next env mp ke kc pos s km) as (added1 & out1 & E1 & _).
    set (s1 := set_generated s (generated s ++ added1)) in *.
    destruct (IH (S pos) s1) as [added2 E2].
    exists (added1 ++ added2). simpl. rewrite E1, E2. simpl.
    rewrite Nat.add_0_r, E1. simpl. rewrite <- app_assoc.
    f_equal; [f_equal |].
    + f_equal. apply imap_ext. intros i x _. simpl. f_equal. lia.
    + f_equal. f_equal. apply imap_ext. intros i x _. simpl.
      replace (pos + S i)%nat with (S (pos + i)) by lia.
      destruct (rule_step_next env mp ke kc (S (pos + i)) s x) as (a & o & E & Eany).
      rewrite (Eany s1) by done. by rewrite E.
Qed.


(** ** [intercept], case by case *)

Lemma track_group_spec env s :
  track_group env s =
  (set_groups s
     (if previous_group s =? group_at_entry env
      then intended_group s else group_at_entry env)
     (group_after_lock env),
   [XkbLockGroup (intended_group (track_group env s).1); XkbGetState]).
Proof. done. Qed.

Lemma intercept_consumed w data env rest :
  category data = XRecordFromServer ->
  consume (data1 data) (generated (self w)) = Some rest ->
  intercept w data env =
  (MkWorld (set_generated (self w) rest) (mouse_pressed w), [XkbGetState]).
Proof. intros Hc Hg. unfold intercept. by rewrite Hc, Hg. Qed.

Lemma intercept_other_category w data env :
  category data <> XRecordFromServer ->
  intercept w data env =
  (MkWorld (track_group env (self w)).1 (mouse_pressed w),
   XkbGetState :: (track_group env (self w)).2).
Proof.
  intros Hc. unfold intercept.
  by destruct (Z.eqb_spec (category data) XRecordFromServer).
Qed.

Lemma delivered_true w data :
  delivered w data = true <->
  category data = XRecordFromServer
  /\ consume (data1 data) (generated (self w)) = None.
Proof.
  unfold delivered. rewrite andb_true_iff, Z.eqb_eq.
  destruct (consume _ _); intuition congruence.
Qed.

Lemma intercept_delivered w data env :
  delivered w data = true ->
  exists added,
    let mp := mouse_pressed_after w data in
    let s1 :=
      set_map (set_generated (self w) (generated (self w) ++ added))
        (imap (fun i km => rule_next env mp (data0 data) (data1 data) i km)
           (map (self w))) in
    intercept w data env =
    (MkWorld (track_group env s1).1 mp,
     XkbGetState
       :: concat (rule_requests w data env <$> seq 0 (length (map (self w))))
       ++ (track_group env s1).2).
Proof.
  intros [Hc Hg]%delivered_true.
  destruct (rule_loop_spec env (mouse_pressed_after w data) (data0 data)
              (data1 data) (map (self w)) 0%nat (self w)) as [added E].
  exists added. unfold intercept. rewrite Hc, Hg. simpl. rewrite E. simpl.
  rewrite (imap_as_seq _ (rule_requests w data env)); [done |].
  intros i km Hi. unfold rule_requests. by rewrite Hi.
Qed.

(** What one delivery does to the rule at position [i], and to the fields
    the rules' handler reads. *)
Lemma intercept_rule w data env i km :
  map (self w) !! i = Some km ->
  let w' := (intercept w data env).1 in
  map (self w') !! i =
    Some (if delivered w data
          then rule_next env (mouse_pressed_after w data) (data0 data) (data1 data) i km
          else km)
  /\ timeout (self w') = timeout (self w)
  /\ mouse_pressed w' =
       (if delivered w data then mouse_pressed_after w data else mouse_pressed w).
Proof.
  intros Hi. destruct (delivered w data) eqn:Hd.
  - destruct (intercept_delivered w data env Hd) as [added E].
    simpl in E. rewrite E. simpl. split; [| done].
    rewrite list_lookup_imap, Hi. done.
  - unfold delivered in Hd.
    destruct (Z.eqb_spec (category data) XRecordFromServer) as [Hc|Hc].
    + destruct (consume (data1 data) (generated (self w))) as [rest|] eqn:Hg; [| done].
      by rewrite (intercept_consumed _ _ _ rest).
    + by rewrite intercept_other_category.
Qed.


Lemma rule_requests_release w data env i km :
  map (self w) !! i = Some km ->
  is_trigger km (data1 data) = true ->
  data0 data <> KeyPress ->
  rule_requests w data env i =
  if negb (used km)
     && timercmp_lt (timersub (gettimeofday env i) (down_at km)) (timeout (self w))
  then tap_requests (to_keys km) else [].
Proof.
  intros Hi Ht Hne. unfold rule_requests, rule_step. rewrite Hi, Ht.
  rewrite handle_key_release by done. by destruct (_ && _).
Qed.

(** ** Sequences of deliveries *)

Lemma run_cons w data env rest :
  (run w ((data, env) :: rest)).1 = (run (intercept w data env).1 rest).1.
Proof.
  simpl. destruct (intercept w data env) as [w1 o1]. simpl.
  by destruct (run w1 rest).
Qed.

Lemma run_app w a b : (run w (a ++ b)).1 = (run (run w a).1 b).1.
Proof.
  revert w. induction a as [|[d e] a IH]; intros w; [done |].
  rewrite <- app_comm_cons, !run_cons. apply IH.
Qed.

Lemma along_app P w a b :
  along P w (a ++ b) = along P w a && along P (run w a).1 b.
Proof.
  revert w. induction a as [|[d e] a IH]; intros w; [done |].
  rewrite run_cons. simpl. rewrite IH. by rewrite andb_assoc.
Qed.

(** A property of the rule at position [i] that every delivery satisfying
    [P] preserves holds at the end of a sequence of such deliveries. *)
Lemma along_rule_invariant (P : World -> XRecordInterceptData -> bool)
    (I : KeyMap_t -> Prop) (i : nat) :
  (forall w data env km,
      map (self w) !! i = Some km -> I km ->
      P w data = true -> delivered w data = true ->
      I (rule_next env (mouse_pressed_after w data) (data0 data) (data1 data) i km)) ->
  forall inputs w km,
    map (self w) !! i = Some km -> I km ->
    along P w inputs = true ->
    exists km',
      map (self (run w inputs).1) !! i = Some km' /\ I km'
      /\ timeout (self (run w inputs).1) = timeout (self w).
Proof.
  intros Hstep. induction inputs as [|[d e] rest IH]; intros w km Hi HI Hal.
  - exists km. by repeat split.
  - simpl in Hal. apply andb_true_iff in Hal as [HP Hal].
    destruct (intercept_rule w d e i km Hi) as (Hi' & Ht & _).
    rewrite run_cons.
    destruct (IH _ _ Hi') as (km' & Hk & HI' & Ht'); [| done |].
    + destruct (delivered w d) eqn:Hd; [by eapply Hstep | done].
    + exists km'. split_and!; [done | done | congruence].
Qed.


Lemma state_after_one w data env :
  state_after w [(data, env)] = (intercept w data env).1.
Proof. unfold state_after. by rewrite run_cons. Qed.

Lemma trigger_event_true i w data km :
  map (self w) !! i = Some km ->
  trigger_event i w data = true <->
  delivered w data = true /\ is_trigger km (data1 data) = true.
Proof.
  intros Hi. unfold trigger_event, trigger_of. rewrite Hi. apply andb_true_iff.
Qed.

Lemma release_event_true i w data km :
  map (self w) !! i = Some km ->
  release_event i w data = true <->
  delivered w data = true /\ is_trigger km (data1 data) = true
  /\ data0 data <> KeyPress.
Proof.
  intros Hi. unfold release_event.
  rewrite andb_true_iff, (trigger_event_true _ _ _ _ Hi), negb_true_iff, Z.eqb_neq.
  tauto.
Qed.

Lemma mouse_pressed_after_key w data :
  data0 data = KeyPress -> mouse_pressed_after w data = mouse_pressed w.
Proof. intros E. unfold mouse_pressed_after. by rewrite E. Qed.

(** The rule after a delivered press of its trigger. *)
Lemma press_event_rule i w data env km :
  map (self w) !! i = Some km ->
  trigger_event i w data = true ->
  data0 data = KeyPress ->
  map (self (state_after w [(data, env)])) !! i =
    Some (set_rule_state km (mouse_pressed w || used km) true (gettimeofday env i))
  /\ timeout (self (state_after w [(data, env)])) = timeout (self w).
Proof.
  intros Hi Htr Hp. apply (trigger_event_true _ _ _ _ Hi) in Htr as [Hd Ht].
  rewrite state_after_one.
  destruct (intercept_rule w data env i km Hi) as (Hi' & Hto & _).
  split; [| done]. rewrite Hi', Hd. unfold rule_next.
  by rewrite Ht, Hp, mouse_pressed_after_key.
Qed.

(** The trace of a delivery that reaches the rule loop is made of the passes
    of the loop, framed by the group requests. *)
Lemma intercept_trace w data env :
  delivered w data = true ->
  (intercept w data env).2 = passes_trace w data env.
Proof.
  intros Hd. destruct (intercept_delivered w data env Hd) as [added E].
  unfold passes_trace. simpl in E. by rewrite E.
Qed.

Lemma state_after_cons w x rest :
  state_after w (x :: rest) = (run (state_after w [x]) rest).1.
Proof. unfold state_after. apply (run_app w [x] rest). Qed.

Lemma state_after_app w a b :
  state_after w (a ++ b) = (run (state_after w a) b).1.
Proof. apply run_app. Qed.

(** Until its release event the rule stays pressed. *)
Lemma pressed_until_release i km inputs w k :
  map (self w) !! i = Some k ->
  same_rule km k -> pressed k = true ->
  along (no_release_for i) w inputs = true ->
  exists k',
    map (self (run w inputs).1) !! i = Some k'
    /\ (same_rule km k' /\ pressed k' = true)
    /\ timeout (self (run w inputs).1) = timeout (self w).
Proof.
  intros Hk Hs Hp.
  apply (along_rule_invariant (no_release_for i)
           (fun k => same_rule km k /\ pressed k = true) i) with (km := k);
    [| done | done].
  clear. intros w d e k Hk [Hs Hp] HP Hd.
  unfold no_release_for in HP. apply negb_true_iff in HP.
  split; [eapply same_rule_trans; [done | apply rule_next_same] |].
  unfold rule_next. destruct (is_trigger k (data1 d)) eqn:Ht.
  - destruct (Z.eqb_spec (data0 d) KeyPress) as [|Hne]; [done |].
    exfalso. assert (release_event i w d = true); [| congruence].
    by apply (release_event_true _ _ _ _ Hk).
  - by destruct (pressed k && _).
Qed.

(** Until its release event a pressed and used rule stays pressed and
    used. *)
Lemma used_until_release i km inputs w k :
  map (self w) !! i = Some k ->
  same_rule km k -> pressed k = true -> used k = true ->
  along (no_release_for i) w inputs = true ->
  exists k',
    map (self (run w inputs).1) !! i = Some k'
    /\ (same_rule km k' /\ pressed k' = true /\ used k' = true)
    /\ timeout (self (run w inputs).1) = timeout (self w).
Proof.
  intros Hk Hs Hp Hu.
  apply (along_rule_invariant (no_release_for i)
           (fun k => same_rule km k /\ pressed k = true /\ used k = true) i)
    with (km := k); [| done | done].
  clear. intros w d e k Hk (Hs & Hp & Hu) HP Hd.
  unfold no_release_for in HP. apply negb_true_iff in HP.
  split; [eapply same_rule_trans; [done | apply rule_next_same] |].
  unfold rule_next. destruct (is_trigger k (data1 d)) eqn:Ht.
  - destruct (Z.eqb_spec (data0 d) KeyPress) as [|Hne].
    + simpl. by rewrite Hu, orb_true_r.
    + exfalso. assert (release_event i w d = true); [| congruence].
      by apply (release_event_true _ _ _ _ Hk).
  - by destruct (pressed k && _).
Qed.

(** Between events of its trigger a rule keeps its [down_at]. *)
Lemma down_at_between_trigger_events i km t inputs w k :
  map (self w) !! i = Some k ->
  same_rule km k -> down_at k = t ->
  along (no_trigger_event_for i) w inputs = true ->
  exists k',
    map (self (run w inputs).1) !! i = Some k'
    /\ (same_rule km k' /\ down_at k' = t)
    /\ timeout (self (run w inputs).1) = timeout (self w).
Proof.
  intros Hk Hs Hp.
  apply (along_rule_invariant (no_trigger_event_for i)
           (fun k => same_rule km k /\ down_at k = t) i) with (km := k);
    [| done | done].
  clear. intros w d e k Hk [Hs Hp] HP Hd.
  unfold no_trigger_event_for in HP. apply negb_true_iff in HP.
  split; [eapply same_rule_trans; [done | apply rule_next_same] |].
  unfold rule_next. destruct (is_trigger k (data1 d)) eqn:Ht.
  - exfalso. assert (trigger_event i w d = true); [| congruence].
    by apply (trigger_event_true _ _ _ _ Hk).
  - by destruct (pressed k && _).
Qed.

(** ** The tap *)

(** C1 (amended).  Take a rule whose [used] flag is clear, and a delivered
    [KeyPress] of its trigger that arrives while [mouse_pressed] is false.
    If no press of another key or button and no further event of the trigger
    is delivered before the rule's release event, and the clock advanced by
    strictly less than the timeout between the two, then the pass of the
    loop for this rule issues exactly: a fake press for each substitute in
    rule order, a fake release for each substitute in rule order, one flush.
    The callback's trace is made of the passes of the loop, one per rule, so
    nothing else is issued for this rule. *)
Theorem C1_tap_injects_presses_then_releases
    (w : World) (i : nat) (km : KeyMap_t)
    (press rel : XRecordInterceptData) (env_p env_r : Env)
    (mids : list (XRecordInterceptData * Env)) :
  map (self w) !! i = Some km ->
  used km = false ->
  mouse_pressed w = false ->
  trigger_event i w press = true ->
  data0 press = KeyPress ->
  along (quiet_for i) (state_after w [(press, env_p)]) mids = true ->
  release_event i (state_after w ((press, env_p) :: mids)) rel = true ->
  normalized (gettimeofday env_p i) ->
  normalized (gettimeofday env_r i) ->
  normalized (timeout (self w)) ->
  to_usec (gettimeofday env_r i) - to_usec (gettimeofday env_p i)
    < to_usec (timeout (self w)) ->
  rule_requests (state_after w ((press, env_p) :: mids)) rel env_r i =
    ((fun k => XTestFakeKeyEvent k true) <$> to_keys km)
    ++ ((fun k => XTestFakeKeyEvent k false) <$> to_keys km) ++ [XFlush]
  /\ (intercept (state_after w ((press, env_p) :: mids)) rel env_r).2 =
       passes_trace (state_after w ((press, env_p) :: mids)) rel env_r.
Proof.
  intros Hi Hu Hm Hpress Hkp Hquiet Hrel Np Nr Nt Hlt.
  destruct (press_event_rule i w press env_p km Hi Hpress Hkp) as [Hi1 Ht1].
  rewrite Hm, Hu in Hi1. simpl in Hi1.
  set (km1 := set_rule_state km false true (gettimeofday env_p i)) in *.
  destruct (along_rule_invariant (quiet_for i) (fun k => k = km1) i) with
    (inputs := mids) (w := state_after w [(press, env_p)]) (km := km1)
    as (km2 & Hi2 & -> & Ht2); [| done | done | done |].
  { intros w0 d e k Hk -> HP Hd. unfold quiet_for in HP.
    rewrite Hd in HP. simpl in HP. apply negb_true_iff, orb_false_iff in HP as [Htr Hpr].
    unfold trigger_of in Htr. rewrite Hk in Htr.
    unfold rule_next. rewrite Htr. unfold is_press in Hpr. rewrite Hpr.
    by rewrite andb_false_r. }
  assert (Ew2 : (run (state_after w [(press, env_p)]) mids).1
                = state_after w ((press, env_p) :: mids)).
  { unfold state_after. symmetry. apply (run_app w [(press, env_p)] mids). }
  rewrite Ew2 in Hi2, Ht2.
  apply (release_event_true _ _ _ _ Hi2) in Hrel as (Hd & Htr & Hne).
  split; [| by apply intercept_trace].
  rewrite (rule_requests_release _ _ _ _ _ Hi2 Htr Hne). simpl.
  rewrite Ht2, Ht1, elapsed_test by done.
  by rewrite (proj2 (Z.ltb_lt _ _) Hlt).
Qed.


(** ** Holds *)

(** C3 (amended).  After a delivered [KeyPress] of a rule's trigger, let a
    key or button press that is delivered (no ledger entry carries its code)
    and does not pass the rule's trigger test arrive before the rule's
    release event.  That press sets the rule's [used] flag, the flag is still
    set when the release event arrives, and the pass of the loop for the rule
    then issues no request, whatever the clock says. *)
Theorem C3_other_press_disqualifies
    (w : World) (i : nat) (km : KeyMap_t)
    (press x rel : XRecordInterceptData) (env_p env_x env_r : Env)
    (before after : list (XRecordInterceptData * Env)) :
  map (self w) !! i = Some km ->
  trigger_event i w press = true ->
  data0 press = KeyPress ->
  along (no_release_for i) (state_after w [(press, env_p)])
    (before ++ (x, env_x) :: after) = true ->
  other_press i (state_after w ((press, env_p) :: before)) x = true ->
  release_event i
    (state_after w ((press, env_p) :: before ++ (x, env_x) :: after)) rel = true ->
  (exists kx,
      map (self (state_after w ((press, env_p) :: before ++ [(x, env_x)]))) !! i
        = Some kx
      /\ used kx = true)
  /\ (exists kr,
        map (self (state_after w ((press, env_p) :: before ++ (x, env_x) :: after))) !! i
          = Some kr
        /\ pressed kr = true /\ used kr = true)
  /\ rule_requests
       (state_after w ((press, env_p) :: before ++ (x, env_x) :: after)) rel env_r i
     = []
  /\ (intercept
        (state_after w ((press, env_p) :: before ++ (x, env_x) :: after)) rel env_r).2
     = passes_trace
         (state_after w ((press, env_p) :: before ++ (x, env_x) :: after)) rel env_r.
Proof.
  intros Hi Hpress Hkp Hal Hx Hrel.
  destruct (press_event_rule i w press env_p km Hi Hpress Hkp) as [Hi1 _].
  rewrite along_app in Hal. apply andb_true_iff in Hal as [Hbefore Hal].
  simpl in Hal. apply andb_true_iff in Hal as [_ Hafter].
  (* up to the other press *)
  destruct (pressed_until_release i km before _ _ Hi1) as (k0 & Hk0 & [Hs0 Hp0] & _);
    [by repeat split | done | done |].
  assert (Ex : (run (state_after w [(press, env_p)]) before).1
               = state_after w ((press, env_p) :: before))
    by (symmetry; apply state_after_cons).
  rewrite Ex in Hk0, Hafter.
  (* the other press *)
  unfold other_press in Hx. apply andb_true_iff in Hx as [Hx Hxp].
  apply andb_true_iff in Hx as [Hxd Hxt]. apply negb_true_iff in Hxt.
  unfold trigger_of in Hxt. rewrite Hk0 in Hxt.
  destruct (intercept_rule _ x env_x i k0 Hk0) as (Hkx & _ & _).
  rewrite Hxd in Hkx. unfold rule_next in Hkx. rewrite Hxt, Hp0 in Hkx.
  unfold is_press in Hxp. rewrite Hxp in Hkx. simpl in Hkx.
  (* from there to the release *)
  destruct (used_until_release i km after _ _ Hkx) as (kr & Hkr & (Hsr & Hpr & Hur) & _);
    [done | done | done | done |].
  assert (E1 : (intercept (state_after w ((press, env_p) :: before)) x env_x).1
               = state_after w ((press, env_p) :: before ++ [(x, env_x)])).
  { rewrite app_comm_cons, state_after_app. unfold state_after at 2.
    by rewrite run_cons. }
  assert (E2 : (run (intercept (state_after w ((press, env_p) :: before)) x env_x).1
                  after).1
               = state_after w ((press, env_p) :: before ++ (x, env_x) :: after)).
  { rewrite (app_comm_cons before), state_after_app.
    by rewrite run_cons. }
  rewrite E2 in Hkr. rewrite E1 in Hkx.
  split; [by exists (set_used k0 true) |].
  split; [by exists kr |].
  apply (release_event_true _ _ _ _ Hkr) in Hrel as (Hd & Htr & Hne).
  split; [| by apply intercept_trace].
  rewrite (rule_requests_release _ _ _ _ _ Hkr Htr Hne). by rewrite Hur.
Qed.

(** C5.  A delivered [KeyPress] of a rule's trigger that arrives while
    [mouse_pressed] is true marks the rule used at once; the rule is still
    used when its release event arrives, and the pass of the loop for the
    rule then issues no request, whatever the clock says and whatever else
    was delivered in between. *)
Theorem C5_press_while_button_held
    (w : World) (i : nat) (km : KeyMap_t)
    (press rel : XRecordInterceptData) (env_p env_r : Env)
    (mids : list (XRecordInterceptData * Env)) :
  map (self w) !! i = Some km ->
  mouse_pressed w = true ->
  trigger_event i w press = true ->
  data0 press = KeyPress ->
  along (no_release_for i) (state_after w [(press, env_p)]) mids = true ->
  release_event i (state_after w ((press, env_p) :: mids)) rel = true ->
  (exists k1,
      map (self (state_after w [(press, env_p)])) !! i = Some k1
      /\ pressed k1 = true /\ used k1 = true)
  /\ rule_requests (state_after w ((press, env_p) :: mids)) rel env_r i = []
  /\ (intercept (state_after w ((press, env_p) :: mids)) rel env_r).2 =
       passes_trace (state_after w ((press, env_p) :: mids)) rel env_r.
Proof.
  intros Hi Hm Hpress Hkp Hal Hrel.
  destruct (press_event_rule i w press env_p km Hi Hpress Hkp) as [Hi1 _].
  rewrite Hm in Hi1. simpl in Hi1.
  split; [eexists; by split_and! |].
  destruct (used_until_release i km mids _ _ Hi1) as (kr & Hkr & (Hsr & Hpr & Hur) & _);
    [by repeat split | done | done | done |].
  rewrite <- state_after_cons in Hkr.
  apply (release_event_true _ _ _ _ Hkr) in Hrel as (Hd & Htr & Hne).
  split; [| by apply intercept_trace].
  rewrite (rule_requests_release _ _ _ _ _ Hkr Htr Hne). by rewrite Hur.
Qed.

(** C4.  After a delivered [KeyPress] of a rule's trigger, and with no
    further event of that trigger delivered before the rule's release event:
    if the clock advanced by the timeout or more between the two, equality
    included, the pass of the loop for the rule issues no request. *)
Theorem C4_no_tap_from_the_timeout_on
    (w : World) (i : nat) (km : KeyMap_t)
    (press rel : XRecordInterceptData) (env_p env_r : Env)
    (mids : list (XRecordInterceptData * Env)) :
  map (self w) !! i = Some km ->
  trigger_event i w press = true ->
  data0 press = KeyPress ->
  along (no_trigger_event_for i) (state_after w [(press, env_p)]) mids = true ->
  release_event i (state_after w ((press, env_p) :: mids)) rel = true ->
  normalized (gettimeofday env_p i) ->
  normalized (gettimeofday env_r i) ->
  normalized (timeout (self w)) ->
  to_usec (timeout (self w))
    <= to_usec (gettimeofday env_r i) - to_usec (gettimeofday env_p i) ->
  rule_requests (state_after w ((press, env_p) :: mids)) rel env_r i = []
  /\ (intercept (state_after w ((press, env_p) :: mids)) rel env_r).2 =
       passes_trace (state_after w ((press, env_p) :: mids)) rel env_r.
Proof.
  intros Hi Hpress Hkp Hal Hrel Np Nr Nt Hge.
  destruct (press_event_rule i w press env_p km Hi Hpress Hkp) as [Hi1 Ht1].
  destruct (down_at_between_trigger_events i km (gettimeofday env_p i) mids _ _ Hi1)
    as (kr & Hkr & (Hsr & Hdr) & Htr); [by repeat split | done | done |].
  rewrite <- state_after_cons in Hkr, Htr.
  apply (release_event_true _ _ _ _ Hkr) in Hrel as (Hd & Htrig & Hne).
  split; [| by apply intercept_trace].
  rewrite (rule_requests_release _ _ _ _ _ Hkr Htrig Hne).
  rewrite Hdr, Htr, Ht1, elapsed_test by done.
  rewrite (proj2 (Z.ltb_ge _ _) Hge). by rewrite andb_false_r.
Qed.


(** ** Repeated presses *)

Lemma intercept_not_delivered w data env :
  delivered w data = false ->
  map (self (intercept w data env).1) = map (self w)
  /\ mouse_pressed (intercept w data env).1 = mouse_pressed w.
Proof.
  intros Hd. unfold delivered in Hd.
  destruct (Z.eqb_spec (category data) XRecordFromServer) as [Hc|Hc].
  - destruct (consume (data1 data) (generated (self w))) as [rest|] eqn:Hg; [| done].
    by rewrite (intercept_consumed _ _ _ rest).
  - by rewrite intercept_other_category.
Qed.

Lemma intercept_timeout w data env :
  timeout (self (intercept w data env).1) = timeout (self w).
Proof.
  destruct (delivered w data) eqn:Hd.
  - destruct (intercept_delivered w data env Hd) as [added E].
    simpl in E. by rewrite E.
  - unfold delivered in Hd.
    destruct (Z.eqb_spec (category data) XRecordFromServer) as [Hc|Hc].
    + destruct (consume (data1 data) (generated (self w))) as [rest|] eqn:Hg; [| done].
      by rewrite (intercept_consumed _ _ _ rest).
    + by rewrite intercept_other_category.
Qed.

Lemma state_after_timeout w inputs :
  timeout (self (state_after w inputs)) = timeout (self w).
Proof.
  unfold state_after. revert w.
  induction inputs as [|[d e] rest IH]; intros w; [done |].
  by rewrite run_cons, IH, intercept_timeout.
Qed.

Lemma held_means_used_intercept w data env :
  held_means_used w -> held_means_used (intercept w data env).1.
Proof.
  intros Hinv. destruct (delivered w data) eqn:Hd.
  - destruct (intercept_delivered w data env Hd) as [added E].
    simpl in E. rewrite E. clear E. intros Hm i km' Hi Hp.
    simpl in Hm, Hi. rewrite list_lookup_imap in Hi.
    destruct (map (self w) !! i) as [km|] eqn:Hk; [| done].
    injection Hi as <-. revert Hp. unfold rule_next.
    unfold mouse_pressed_after in *.
    destruct (is_trigger km (data1 data)).
    + destruct (data0 data =? KeyPress); simpl; [| done].
      intros _. destruct (Z.eqb_spec (data0 data) ButtonPress); [done |].
      destruct (Z.eqb_spec (data0 data) ButtonRelease); [done |].
      rewrite Hm. done.
    + destruct (pressed km) eqn:Hpk; simpl; [| by rewrite Hpk].
      destruct (Z.eqb_spec (data0 data) ButtonPress) as [|Hb].
      { by rewrite orb_true_r. }
      destruct (Z.eqb_spec (data0 data) ButtonRelease); [done |].
      rewrite orb_false_r. destruct (data0 data =? KeyPress); [done |].
      intros _. by apply (Hinv Hm i).
  - destruct (intercept_not_delivered w data env Hd) as [Em Emp].
    unfold held_means_used. by rewrite Em, Emp.
Qed.

Lemma held_means_used_reachable m t group previous inputs :
  held_means_used (state_after (startup m t group previous) inputs).
Proof.
  unfold state_after.
  assert (H0 : held_means_used (startup m t group previous)) by done.
  revert H0. generalize (startup m t group previous).
  induction inputs as [|[d e] rest IH]; intros w Hw; [done |].
  rewrite run_cons. by apply IH, held_means_used_intercept.
Qed.

Lemma idle_means_unused_intercept w data env :
  idle_means_unused w -> idle_means_unused (intercept w data env).1.
Proof.
  intros Hinv i km' Hi. destruct (delivered w data) eqn:Hd.
  - destruct (intercept_delivered w data env Hd) as [added E].
    simpl in E. rewrite E in Hi. clear E. simpl in Hi.
    rewrite list_lookup_imap in Hi.
    destruct (map (self w) !! i) as [km|] eqn:Hk; [| done].
    injection Hi as <-. specialize (Hinv i km Hk). unfold rule_next.
    destruct (is_trigger km (data1 data)).
    + by destruct (data0 data =? KeyPress).
    + destruct (pressed km) eqn:Hp; simpl; [| by rewrite Hp].
      destruct (_ || _); simpl; [by rewrite Hp | by rewrite Hp].
  - destruct (intercept_not_delivered w data env Hd) as [Em _].
    rewrite Em in Hi. by apply (Hinv i).
Qed.

(** Between taps the rules are as the parser left them: idle and unused. *)
Lemma idle_means_unused_reachable m t group previous inputs :
  (forall km, km ∈ m -> pressed km = false -> used km = false) ->
  idle_means_unused (state_after (startup m t group previous) inputs).
Proof.
  intros Hm. unfold state_after.
  assert (H0 : idle_means_unused (startup m t group previous)).
  { intros i km Hi. apply Hm. by eapply list_elem_of_lookup_2. }
  revert H0. generalize (startup m t group previous).
  induction inputs as [|[d e] rest IH]; intros w Hw; [done |].
  rewrite run_cons. by apply IH, idle_means_unused_intercept.
Qed.

(** C9.  In any state the callback can be in after start-up, a delivered
    [KeyPress] of the trigger of a rule that is already pressed is handled
    like a first press: the rule stays pressed, [down_at] is overwritten
    with the current time, and [used] keeps its value.  The next release
    event of the rule is therefore timed against this latest press. *)
Theorem C9_repeated_press_restarts_the_clock
    (m : list KeyMap_t) (t : timeval) (group previous : Z)
    (inputs : list (XRecordInterceptData * Env))
    (w : World) (i : nat) (km : KeyMap_t)
    (press : XRecordInterceptData) (env : Env) :
  w = state_after (startup m t group previous) inputs ->
  map (self w) !! i = Some km ->
  pressed km = true ->
  trigger_event i w press = true ->
  data0 press = KeyPress ->
  exists km',
    map (self (state_after w [(press, env)])) !! i = Some km'
    /\ pressed km' = true
    /\ down_at km' = gettimeofday env i
    /\ used km' = used km
    /\ forall rel env_r,
         release_event i (state_after w [(press, env)]) rel = true ->
         rule_requests (state_after w [(press, env)]) rel env_r i =
         if negb (used km)
            && timercmp_lt (timersub (gettimeofday env_r i) (gettimeofday env i)) t
         then tap_requests (to_keys km) else [].
Proof.
  intros -> Hi Hp Hpress Hkp.
  destruct (press_event_rule i _ press env km Hi Hpress Hkp) as [Hi1 Ht1].
  pose proof (held_means_used_reachable m t group previous inputs) as Hinv.
  assert (Hu : (mouse_pressed (state_after (startup m t group previous) inputs)
                || used km) = used km).
  { destruct (mouse_pressed _) eqn:Hm; [| done].
    simpl. symmetry. by apply (Hinv Hm i). }
  rewrite Hu in Hi1. eexists. split; [exact Hi1 |].
  split_and!; [done | done | done |].
  intros rel env_r Hrel.
  apply (release_event_true _ _ _ _ Hi1) in Hrel as (_ & Htr & Hne).
  rewrite (rule_requests_release _ _ _ _ _ Hi1 Htr Hne). simpl.
  by rewrite Ht1, state_after_timeout.
Qed.


(** ** Generated events *)

Lemma tap_requests_codes keys k b :
  XTestFakeKeyEvent k b ∈ tap_requests keys -> k ∈ keys.
Proof.
  unfold tap_requests. rewrite !elem_of_app, !list_elem_of_fmap.
  intros [(y & [= -> _] & Hy) | [(y & [= -> _] & Hy) | Hf]]; [done | done |].
  by apply list_elem_of_singleton in Hf.
Qed.

(** Whatever a pass of the loop injects it has recorded in the ledger. *)
Lemma rule_step_recorded env mp ke kc pos s km :
  let r := rule_step env mp ke kc pos s km in
  (exists added, generated r.1.1 = generated s ++ added)
  /\ forall k b, XTestFakeKeyEvent k b ∈ r.2 -> k ∈ generated r.1.1.
Proof.
  unfold rule_step. destruct (is_trigger km kc).
  - destruct (Z.eqb_spec ke KeyPress) as [->|Hne].
    + rewrite handle_key_press. simpl. split.
      * exists []. by rewrite app_nil_r.
      * intros k b Hin. by apply elem_of_nil in Hin.
    + rewrite handle_key_release by done. destruct (_ && _); simpl.
      * split; [by eexists |]. intros k b Hin%tap_requests_codes.
        rewrite !elem_of_app. auto.
      * split; [exists []; by rewrite app_nil_r |].
        intros k b Hin. by apply elem_of_nil in Hin.
  - destruct (pressed km && _); simpl;
      (split; [exists []; by rewrite app_nil_r |];
       intros k b Hin; by apply elem_of_nil in Hin).
Qed.

Lemma rule_loop_recorded env mp ke kc m :
  forall pos s,
    let r := rule_loop env mp ke kc pos s m in
    (exists added, generated r.1.1 = generated s ++ added)
    /\ forall k b, XTestFakeKeyEvent k b ∈ r.2 -> k ∈ generated r.1.1.
Proof.
  induction m as [|km m IH]; intros pos s; simpl.
  - split; [exists []; by rewrite app_nil_r |].
    intros k b Hin. by apply elem_of_nil in Hin.
  - pose proof (rule_step_recorded env mp ke kc pos s km) as Hstep.
    destruct (rule_step env mp ke kc pos s km) as [[s1 km'] out1].
    simpl in Hstep. destruct Hstep as [[a1 Ea1] Hrec1].
    pose proof (IH (S pos) s1) as Hloop.
    destruct (rule_loop env mp ke kc (S pos) s1 m) as [[s2 m'] out2].
    simpl in *. destruct Hloop as [[a2 Ea2] Hrec2]. split.
    + exists (a1 ++ a2). by rewrite Ea2, Ea1, app_assoc.
    + intros k b [Hin|Hin]%elem_of_app; [| by eapply Hrec2].
      rewrite Ea2, elem_of_app. left. by eapply Hrec1.
Qed.

(** An entry for [k] stays in the ledger while the events that arrive carry
    other codes. *)
Lemma ledger_entry_kept w data env k :
  k ∈ generated (self w) ->
  data1 data <> k ->
  k ∈ generated (self (intercept w data env).1).
Proof.
  intros Hk Hne. destruct (delivered w data) eqn:Hd.
  - destruct (intercept_delivered w data env Hd) as [added E].
    simpl in E. rewrite E. simpl. rewrite elem_of_app. by left.
  - unfold delivered in Hd.
    destruct (Z.eqb_spec (category data) XRecordFromServer) as [Hc|Hc].
    + destruct (consume (data1 data) (generated (self w))) as [rest|] eqn:Hg; [| done].
      rewrite (intercept_consumed _ _ _ rest) by done. simpl.
      apply consume_Some in Hg as (older & newer & Eg & _ & ->).
      rewrite Eg in Hk. rewrite elem_of_app, elem_of_cons in Hk.
      rewrite elem_of_app. destruct Hk as [? | [? | ?]]; [by left | done | by right].
    + by rewrite intercept_other_category.
Qed.

Lemma ledger_entry_kept_run k others :
  Forall (fun de : XRecordInterceptData * Env => data1 de.1 <> k) others ->
  forall w, k ∈ generated (self w) -> k ∈ generated (self (state_after w others)).
Proof.
  unfold state_after.
  induction 1 as [|[d e] others Hd _ IH]; intros w Hk; [done |].
  rewrite run_cons. by apply IH, ledger_entry_kept.
Qed.

(** C2.  A server event whose code is carried by some ledger entry: the
    callback unlinks the oldest such entry and nothing else, so the mapping
    table (every rule's [pressed], [used], [down_at]) and the mouse flag are
    as before, and it issues no request but the group query at its entry,
    in particular no fake key event.  And whenever the callback injects a
    code, the first later server event that carries this code is handled in
    that way: it finds the code in the ledger, leaves the rules as they are
    and injects nothing. *)
Theorem C2_ledger_match_unlinks_oldest_entry
    (w : World) (data : XRecordInterceptData) (env : Env) :
  (category data = XRecordFromServer ->
   data1 data ∈ generated (self w) ->
   exists older newer,
     generated (self w) = older ++ data1 data :: newer
     /\ (data1 data ∉ older)
     /\ intercept w data env =
        (MkWorld (set_generated (self w) (older ++ newer)) (mouse_pressed w),
         [XkbGetState]))
  /\ (forall k b others echo env_e,
        XTestFakeKeyEvent k b ∈ (intercept w data env).2 ->
        Forall (fun de : XRecordInterceptData * Env => data1 de.1 <> k) others ->
        category echo = XRecordFromServer ->
        data1 echo = k ->
        k ∈ generated (self (state_after (intercept w data env).1 others))
        /\ map (self (intercept (state_after (intercept w data env).1 others) echo env_e).1)
           = map (self (state_after (intercept w data env).1 others))
        /\ (intercept (state_after (intercept w data env).1 others) echo env_e).2
           = [XkbGetState]).
Proof.
  split.
  - intros Hc [rest Hrest]%consume_elem_of.
    destruct (proj1 (consume_Some _ _ _) Hrest) as (older & newer & Eg & Hnot & ->).
    exists older, newer. split_and!; [done | done |].
    by apply intercept_consumed.
  - intros k b others echo env_e Hin Hothers Hc Hk.
    assert (Hrec : k ∈ generated (self (intercept w data env).1)).
    { revert Hin. clear. unfold intercept.
      destruct (category data =? XRecordFromServer).
      + destruct (consume (data1 data) (generated (self w))) as [rest|]; simpl.
        * intros Hin. apply list_elem_of_singleton in Hin. done.
        * pose proof (rule_loop_recorded env (mouse_pressed_after w data) (data0 data)
                        (data1 data) (map (self w)) 0%nat (self w)) as Hloop.
          destruct (rule_loop _ _ _ _ _ _ _) as [[s1 m'] out].
          simpl in *. destruct Hloop as [_ Hrec].
          rewrite elem_of_cons, elem_of_app.
          intros [? | [Hin | Hin]]; [done | by eapply Hrec |].
          rewrite !elem_of_cons in Hin. destruct Hin as [? | [? | Hin]]; [done | done |].
          by apply elem_of_nil in Hin.
      + simpl. rewrite !elem_of_cons.
        intros [? | [? | [? | Hin]]]; [done | done | done |].
        by apply elem_of_nil in Hin. }
    pose proof (ledger_entry_kept_run k others Hothers _ Hrec) as Hkept.
    split; [done |]. rewrite <- Hk in Hkept.
    destruct (consume_elem_of _ _ Hkept) as [rest Hrest].
    by rewrite (intercept_consumed _ _ _ rest).
Qed.

(** C10.  The ledger scan looks at [data->data[1]] only.  For a server
    event whose code is carried by a ledger entry the callback's result is
    the same whatever the event type in [data->data[0]] (and whatever the
    server and the clock would have answered): one ledger entry is gone,
    the rules, the mouse flag and both group fields are untouched, and
    neither the rule loop nor the group re-assertion has run. *)
Theorem C10_ledger_match_ignores_event_type
    (w : World) (key_code : KeyCode) (key_event key_event' : Z) (env env' : Env) :
  key_code ∈ generated (self w) ->
  intercept w (InterceptData XRecordFromServer key_event key_code) env
    = intercept w (InterceptData XRecordFromServer key_event' key_code) env'
  /\ (let r := intercept w (InterceptData XRecordFromServer key_event key_code) env in
      S (length (generated (self r.1))) = length (generated (self w))
      /\ map (self r.1) = map (self w)
      /\ mouse_pressed r.1 = mouse_pressed w
      /\ intended_group (self r.1) = intended_group (self w)
      /\ previous_group (self r.1) = previous_group (self w)
      /\ r.2 = [XkbGetState]).
Proof.
  intros [rest Hrest]%consume_elem_of.
  rewrite !(intercept_consumed _ _ _ rest) by done.
  split; [done |]. simpl. split_and!; try done.
  apply consume_Some in Hrest as (older & newer & -> & _ & ->).
  rewrite !length_app. simpl. lia.
Qed.

(** ** The keyboard group *)

(** C6 (amended).  On every invocation that is not cut short by a ledger
    match (the event is not a server event, or no ledger entry carries its
    code), the callback ends by asserting the intended group with
    [XkbLockGroup] and querying the state again; the group that query
    reports is stored in [previous_group]; and the intended group asserted
    is the group read at entry whenever that differs from the old
    [previous_group], the old intended group otherwise. *)
Theorem C6_group_reasserted_unless_ledger_match
    (w : World) (data : XRecordInterceptData) (env : Env) :
  (category data = XRecordFromServer -> data1 data ∉ generated (self w)) ->
  previous_group (self (intercept w data env).1) = group_after_lock env
  /\ intended_group (self (intercept w data env).1) =
       (if previous_group (self w) =? group_at_entry env
        then intended_group (self w) else group_at_entry env)
  /\ exists out,
       (intercept w data env).2 =
       XkbGetState :: out
         ++ [XkbLockGroup (intended_group (self (intercept w data env).1));
             XkbGetState].
Proof.
  intros Hnot.
  destruct (Z.eq_dec (category data) XRecordFromServer) as [Hc|Hc].
  - assert (Hd : delivered w data = true).
    { apply delivered_true. split; [done |]. by apply consume_None, Hnot. }
    destruct (intercept_delivered w data env Hd) as [added E].
    simpl in E. rewrite E. simpl. split_and!; [done | done |]. by eexists.
  - rewrite intercept_other_category by done. simpl.
    split_and!; [done | done |]. by exists [].
Qed.

(** ** Flushing *)

(** C8 (amended).  On a confirmed tap [handle_key] issues the fake presses,
    then the fake releases, then a single [XFlush]: nothing is flushed
    between the press pass and the release pass. *)
Theorem C8_single_flush_after_release_pass
    (s : XCape_t) (key : KeyMap_t) (mouse_pressed : bool) (key_event : Z)
    (now : timeval) :
  key_event <> KeyPress ->
  used key = false ->
  timercmp_lt (timersub now (down_at key)) (timeout s) = true ->
  (handle_key s key mouse_pressed key_event now).2 =
    ((fun k => XTestFakeKeyEvent k true) <$> to_keys key)
    ++ ((fun k => XTestFakeKeyEvent k false) <$> to_keys key)
    ++ [XFlush]
  /\ (XFlush ∉ ((fun k => XTestFakeKeyEvent k true) <$> to_keys key)
               ++ ((fun k => XTestFakeKeyEvent k false) <$> to_keys key))
  /\ flushes (handle_key s key mouse_pressed key_event now).2 = 1%nat.
Proof.
  intros Hne Hu Hlt. rewrite handle_key_release by done.
  rewrite Hu, Hlt. simpl. split; [done |]. split.
  - rewrite elem_of_app, !list_elem_of_fmap. intros [(y & ? & _) | (y & ? & _)]; done.
  - unfold flushes, tap_requests. rewrite !List.filter_app, !length_app.
    assert (E : forall b l,
               List.filter is_flush ((fun k => XTestFakeKeyEvent k b) <$> l) = []).
    { intros b l. induction l; [done | by simpl]. }
    by rewrite !E.
Qed.

End Engine.

(** ** The parser *)

(** [strsep_all] is the iteration of [strsep] until it leaves [NULL]. *)
Lemma strsep_all_unfold delim p :
  strsep_all delim p =
  (strsep delim p).1
    :: match (strsep delim p).2 with
       | Some p' => strsep_all delim p'
       | None => []
       end.
Proof.
  induction p as [|c p IH]; [done |].
  simpl. destruct (Ascii.eqb c delim); [done |].
  rewrite IH. by destruct (strsep delim p).
Qed.

Section ParserFacts.

Context `{Xlib} `{Libc}.

(** A token without [=] yields no rule. *)
Lemma parse_token_without_equals token :
  (strsep "="%char token).2 = None -> parse_token token = None.
Proof.
  unfold parse_token. destruct (strsep "="%char token) as [from [to|]]; done.
Qed.

(** The substitute loop only touches [to_keys]; it fails as soon as one
    substitute does not resolve. *)
Lemma substitute_loop_spec keys :
  forall km km',
    substitute_loop keys km = Some km' ->
    exists codes,
      mapM substitute_code keys = Some codes
      /\ km' = set_from km (UseKeyCode km) (from_ks km) (from_kc km)
                 (to_keys km ++ codes).
Proof.
  induction keys as [|key keys IH]; intros km km' E; simpl in *.
  - injection E as <-. exists []. split; [done |].
    rewrite app_nil_r. by destruct km.
  - destruct (substitute_code key) as [code|]; [| done].
    apply IH in E as (codes & -> & ->). exists (code :: codes).
    split; [done |]. unfold key_add_key. simpl. by rewrite <- app_assoc.
Qed.

Lemma substitute_loop_unresolved keys km key :
  key ∈ keys -> substitute_code key = None -> substitute_loop keys km = None.
Proof.
  revert km. induction keys as [|k keys IH]; intros km Hin Hkey.
  - by apply elem_of_nil in Hin.
  - simpl. apply elem_of_cons in Hin as [<-|Hin]; [by rewrite Hkey |].
    destruct (substitute_code k); [by apply IH | done].
Qed.

(** An entry one of whose substitutes does not resolve yields no rule. *)
Lemma parse_token_unresolved_substitute token from to key :
  strsep "="%char token = (from, Some to) ->
  key ∈ strsep_all "|"%char to ->
  substitute_code key = None ->
  parse_token token = None.
Proof.
  intros E Hin Hkey. unfold parse_token. rewrite E.
  by eapply substitute_loop_unresolved.
Qed.

(** Tokens are parsed independently of each other: a token that yields no
    rule is passed over and the loop goes on. *)
Lemma link_tokens_app a b : link_tokens (a ++ b) = link_tokens a ++ link_tokens b.
Proof.
  induction a as [|t a IH]; [done |].
  simpl. destruct (parse_token t); [| done]. by rewrite IH.
Qed.

Lemma link_tokens_skip a token b :
  parse_token token = None ->
  link_tokens (a ++ token :: b) = link_tokens a ++ link_tokens b.
Proof. intros E. rewrite link_tokens_app. simpl. by rewrite E. Qed.

(** Every rule comes out of the parser released and unused. *)
Lemma parse_token_idle token km :
  parse_token token = Some km -> pressed km = false /\ used km = false.
Proof.
  unfold parse_token. destruct (strsep "="%char token) as [from [to|]]; [| done].
  intros (codes & _ & ->)%substitute_loop_spec. simpl.
  destruct from as [|c from]; unfold keysym_from_string, keysym_from_keycode.
  - by destruct (_ =? NoSymbol).
  - destruct (Ascii.ascii_dec c "#"%char) as [->|Hc].
    + destruct (strtoul from) as [u errno]. by destruct (valid_keycode _ _).
    + assert (E : forall (A : Type) (x y : A),
                 match c with "#"%char => x | _ => y end = y).
      { intros A x y. destruct c as [[] [] [] [] [] [] [] []]; try done. }
      rewrite E. by destruct (_ =? NoSymbol).
Qed.

Lemma parse_mapping_idle mapping km :
  km ∈ parse_mapping mapping -> pressed km = false /\ used km = false.
Proof.
  unfold parse_mapping. induction (strsep_all ";"%char mapping) as [|t ts IH]; simpl.
  - intros Hin. by apply elem_of_nil in Hin.
  - destruct (parse_token t) as [nkm|] eqn:E; [| done].
    intros [->|Hin]%elem_of_cons; [by eapply parse_token_idle | by apply IH].
Qed.

(** C7 (defect of the code).  An entry whose trigger does not resolve, be it
    a name [XStringToKeysym] does not know or a [#]-code that fails the key
    code test, is not skipped.  [keysym_from_string] and [keysym_from_keycode]
    print their message and return, but [parse_token] goes on with the zeroed
    rule, and when the substitutes resolve the entry is linked into the table
    with [UseKeyCode = False] and [from_ks = NoSymbol].  (Entries without [=]
    and entries with an unresolved substitute are skipped:
    [parse_token_without_equals], [parse_token_unresolved_substitute],
    [link_tokens_skip].) *)
Theorem C7_unresolved_trigger_is_kept
    (token from to : string) (codes : list KeyCode) :
  strsep "="%char token = (from, Some to) ->
  trigger_resolves from = false ->
  mapM substitute_code (strsep_all "|"%char to) = Some codes ->
  parse_token token =
    Some {| UseKeyCode := false; from_ks := NoSymbol; from_kc := 0;
            to_keys := codes; used := false; pressed := false; mouse := false;
            down_at := Timeval 0 0 |}
  /\ forall before after,
       exists rule,
         parse_token token = Some rule
         /\ link_tokens (before ++ token :: after)
            = link_tokens before ++ rule :: link_tokens after.
Proof.
  intros E Hres Hcodes.
  assert (Etok : parse_token token =
    Some {| UseKeyCode := false; from_ks := NoSymbol; from_kc := 0;
            to_keys := codes; used := false; pressed := false; mouse := false;
            down_at := Timeval 0 0 |}).
  { unfold parse_token. rewrite E.
    assert (Efrom : match from with
                    | String "#"%char from' => keysym_from_keycode from' calloc_KeyMap
                    | _ => keysym_from_string from calloc_KeyMap
                    end = calloc_KeyMap).
    { unfold trigger_resolves in Hres.
      unfold keysym_from_string, keysym_from_keycode.
      destruct from as [|c from].
      - apply negb_false_iff in Hres. by rewrite Hres.
      - destruct c as [[] [] [] [] [] [] [] []];
          try (apply negb_false_iff in Hres; by rewrite Hres).
        destruct (strtoul from) as [u errno]. by rewrite Hres. }
    rewrite Efrom. clear Efrom.
    destruct (substitute_loop (strsep_all "|"%char to) calloc_KeyMap) as [km|] eqn:El.
    - apply substitute_loop_spec in El as (codes' & Ec & ->).
      rewrite Hcodes in Ec. by injection Ec as <-.
    - exfalso. revert El Hcodes. generalize calloc_KeyMap. revert codes.
      induction (strsep_all "|"%char to) as [|k ks IH]; intros codes km; [done |].
      simpl. destruct (substitute_code k); [| done]. simpl.
      intros El. destruct (mapM substitute_code ks) eqn:Em; [| done].
      intros _. by eapply IH. }
  split; [done |]. intros before after. eexists. split; [done |].
  rewrite link_tokens_app. simpl. by rewrite Etok.
Qed.

End ParserFacts.

(** * Worked examples *)

Section Examples.

Import Demo.

(** Scenario D: [Super_L=Control_L|Escape], Super_L tapped within 100 ms
    while another key is released in between: the substitutes go down as a
    chord and come up in the same order. *)
Lemma C1_witness_chord :
  rule_requests
    (state_after (started "Super_L=Control_L|Escape")
       [(key_press kc_Super_L, at_ms 0); (key_release kc_a, at_ms 20)])
    (key_release kc_Super_L) (at_ms 100) 0
  = [XTestFakeKeyEvent kc_Control_L true; XTestFakeKeyEvent kc_Escape true;
     XTestFakeKeyEvent kc_Control_L false; XTestFakeKeyEvent kc_Escape false;
     XFlush].
Proof.
  refine (proj1 (C1_tap_injects_presses_then_releases
                   (started "Super_L=Control_L|Escape") 0
                   (KeyMap false XK_Super_L 0 [kc_Control_L; kc_Escape]
                      false false false (Timeval 0 0))
                   (key_press kc_Super_L) (key_release kc_Super_L)
                   (at_ms 0) (at_ms 100) [(key_release kc_a, at_ms 20)]
                   _ _ _ _ _ _ _ _ _ _ _));
    try reflexivity; unfold normalized, to_usec; simpl; lia.
Defined.

(** The trigger is pressed while button 1 is held and released 100 ms
    later with nothing in between.  The press and the release are events of
    the rule's trigger, no other event lies between them and the elapsed time
    is below the timeout, yet the two callbacks issue no fake key event. *)
Lemma C1_counterexample_button_held :
  let w := state_after (started "Control_L=Escape") [(button_press 1, at_ms 0)] in
  let press := (key_press kc_Control_L, at_ms 10) in
  let rel := (key_release kc_Control_L, at_ms 110) in
  trigger_event 0 w press.1 = true
  /\ release_event 0 (state_after w [press]) rel.1 = true
  /\ to_usec (gettimeofday rel.2 0) - to_usec (gettimeofday press.2 0)
     < to_usec (timeout (self w))
  /\ (run w [press; rel]).2 =
     [XkbGetState; XkbLockGroup 0; XkbGetState;
      XkbGetState; XkbLockGroup 0; XkbGetState].
Proof. by vm_compute. Qed.

(** A tap of Control_L under [Control_L=Escape|a] leaves the ledger
    [9; 38; 9; 38].  The next server event with code 38 takes out the entry
    at position 1 and leaves the later one in place. *)
Lemma C2_witness_oldest_of_two :
  let w := state_after (started "Control_L=Escape|a")
             [(key_press kc_Control_L, at_ms 0); (key_release kc_Control_L, at_ms 100)] in
  exists older newer,
    generated (self w) = older ++ kc_a :: newer
    /\ (kc_a ∉ older)
    /\ intercept w (key_press kc_a) (at_ms 101) =
       (MkWorld (set_generated (self w) (older ++ newer)) (mouse_pressed w),
        [XkbGetState]).
Proof.
  refine (proj1 (C2_ledger_match_unlinks_oldest_entry _ (key_press kc_a) (at_ms 101))
            _ _); [reflexivity | repeat constructor].
Defined.

(** Scenario B: Control_L down, [a] down 50 ms later, Control_L up at
    100 ms. *)
Lemma C3_witness_other_key :
  rule_requests
    (state_after (started "Control_L=Escape")
       [(key_press kc_Control_L, at_ms 0); (key_press kc_a, at_ms 50)])
    (key_release kc_Control_L) (at_ms 100) 0
  = [].
Proof.
  refine (proj1 (proj2 (proj2 (C3_other_press_disqualifies
                          (started "Control_L=Escape") 0
                          (KeyMap false XK_Control_L 0 [kc_Escape]
                             false false false (Timeval 0 0))
                          (key_press kc_Control_L) (key_press kc_a)
                          (key_release kc_Control_L)
                          (at_ms 0) (at_ms 50) (at_ms 100) [] []
                          _ _ _ _ _ _))));
    reflexivity.
Defined.

(** Control_L is tapped, which leaves [9; 9] in the ledger; Control_L goes
    down again, a [KeyPress] with code 9 arrives, and Control_L comes up
    within the timeout.  The press in between matches a ledger entry, so it
    is dropped before the rule loop and does not mark the rule used: the
    second release injects again. *)
Lemma C3_counterexample_press_dropped_by_ledger :
  let w := state_after (started "Control_L=Escape")
             [(key_press kc_Control_L, at_ms 0); (key_release kc_Control_L, at_ms 100)] in
  let press := (key_press kc_Control_L, at_ms 200) in
  let other := (key_press kc_Escape, at_ms 250) in
  let rel := (key_release kc_Control_L, at_ms 300) in
  trigger_event 0 w press.1 = true
  /\ is_press other.1 = true
  /\ trigger_of 0 (state_after w [press]) other.1 = false
  /\ release_event 0 (state_after w [press; other]) rel.1 = true
  /\ (intercept (state_after w [press; other]) rel.1 rel.2).2 =
     [XkbGetState; XTestFakeKeyEvent kc_Escape true; XTestFakeKeyEvent kc_Escape false;
      XFlush; XkbLockGroup 0; XkbGetState].
Proof. by vm_compute. Qed.

(** Scenario A: Control_L released 100 ms after the press, nothing in
    between.  Scenario C: released after 600 ms. *)
Example scenario_A_tap :
  (run (started "Control_L=Escape")
     [(key_press kc_Control_L, at_ms 0); (key_release kc_Control_L, at_ms 100)]).2
  = [XkbGetState; XkbLockGroup 0; XkbGetState;
     XkbGetState; XTestFakeKeyEvent kc_Escape true; XTestFakeKeyEvent kc_Escape false;
     XFlush; XkbLockGroup 0; XkbGetState].
Proof. reflexivity. Qed.

Example scenario_C_hold :
  (run (started "Control_L=Escape")
     [(key_press kc_Control_L, at_ms 0); (key_release kc_Control_L, at_ms 600)]).2
  = [XkbGetState; XkbLockGroup 0; XkbGetState;
     XkbGetState; XkbLockGroup 0; XkbGetState].
Proof. reflexivity. Qed.

(** One millisecond inside the timeout the tap still fires. *)
Example tap_just_inside_timeout :
  rule_requests
    (state_after (started "Control_L=Escape") [(key_press kc_Control_L, at_ms 0)])
    (key_release kc_Control_L) (at_ms 499) 0
  = [XTestFakeKeyEvent kc_Escape true; XTestFakeKeyEvent kc_Escape false; XFlush].
Proof. reflexivity. Qed.

(** After a tap, the two echoes empty the ledger again and leave the rule
    idle. *)
Example echoes_drain_the_ledger :
  state_after (started "Control_L=Escape")
    [(key_press kc_Control_L, at_ms 0); (key_release kc_Control_L, at_ms 100);
     (key_press kc_Escape, at_ms 101); (key_release kc_Escape, at_ms 102)]
  = started "Control_L=Escape".
Proof. reflexivity. Qed.

(** The trigger test compares codes without regard to the event type, and
    [handle_key] takes every event other than [KeyPress] for a release: with
    Escape (key code 9) as the trigger, a press of mouse button 9 while the
    key is down is handled as the rule's release. *)
Example button_with_the_trigger_code_releases_the_rule :
  (run (started "Escape=Control_L")
     [(key_press kc_Escape, at_ms 0); (button_press 9, at_ms 50)]).2
  = [XkbGetState; XkbLockGroup 0; XkbGetState;
     XkbGetState; XTestFakeKeyEvent kc_Control_L true;
     XTestFakeKeyEvent kc_Control_L false; XFlush; XkbLockGroup 0; XkbGetState].
Proof. reflexivity. Qed.

(** Scenario C at the boundary: the release comes exactly 500 ms after the
    press, with the default timeout of 500 ms. *)
Lemma C4_witness_exactly_the_timeout :
  rule_requests
    (state_after (started "Control_L=Escape") [(key_press kc_Control_L, at_ms 0)])
    (key_release kc_Control_L) (at_ms 500) 0
  = [].
Proof.
  refine (proj1 (C4_no_tap_from_the_timeout_on
            (started "Control_L=Escape") 0
            (KeyMap false XK_Control_L 0 [kc_Escape] false false false (Timeval 0 0))
            (key_press kc_Control_L) (key_release kc_Control_L)
            (at_ms 0) (at_ms 500) [] _ _ _ _ _ _ _ _ _));
    try reflexivity; unfold normalized, to_usec; simpl; lia.
Defined.

(** Button 1 is held, then Control_L is tapped within 100 ms. *)
Lemma C5_witness_button_held :
  rule_requests
    (state_after
       (state_after (started "Control_L=Escape") [(button_press 1, at_ms 0)])
       [(key_press kc_Control_L, at_ms 10)])
    (key_release kc_Control_L) (at_ms 110) 0
  = [].
Proof.
  refine (proj1 (proj2 (C5_press_while_button_held
                   (state_after (started "Control_L=Escape") [(button_press 1, at_ms 0)]) 0
                   (KeyMap false XK_Control_L 0 [kc_Escape] false false false (Timeval 0 0))
                   (key_press kc_Control_L) (key_release kc_Control_L)
                   (at_ms 10) (at_ms 110) [] _ _ _ _ _ _)));
    reflexivity.
Defined.

(** The user has switched to group 1 when [a] is pressed: the callback
    adopts group 1 as the intended group and asserts it. *)
Lemma C6_witness_layout_switch :
  let w := started "Control_L=Escape" in
  let env := MkEnv 1 1 (fun _ => Timeval 0 0) in
  previous_group (self (intercept w (key_press kc_a) env).1) = group_after_lock env
  /\ intended_group (self (intercept w (key_press kc_a) env).1) =
       (if previous_group (self w) =? group_at_entry env
        then intended_group (self w) else group_at_entry env)
  /\ exists out,
       (intercept w (key_press kc_a) env).2 =
       XkbGetState :: out
         ++ [XkbLockGroup (intended_group (self (intercept w (key_press kc_a) env).1));
             XkbGetState].
Proof.
  refine (C6_group_reasserted_unless_ledger_match _ _ _ _).
  intros _. apply not_elem_of_nil.
Defined.

(** After a tap the ledger holds [9; 9].  The next event has code 9 and
    arrives after the user has switched to group 1: the callback returns
    from the ledger scan, so it neither adopts group 1 nor asserts any group,
    and [previous_group] keeps its old value instead of the group a second
    query would report. *)
Lemma C6_counterexample_ledger_match_skips_group :
  let w := state_after (started "Control_L=Escape")
             [(key_press kc_Control_L, at_ms 0); (key_release kc_Control_L, at_ms 100)] in
  let env := MkEnv 1 1 (fun _ => Timeval 0 0) in
  let r := intercept w (key_press kc_Escape) env in
  previous_group (self w) = 0
  /\ group_at_entry env = 1
  /\ r.2 = [XkbGetState]
  /\ intended_group (self r.1) = 0
  /\ previous_group (self r.1) = 0
  /\ group_after_lock env = 1.
Proof. by vm_compute. Qed.

(** The failing input: the trigger name [Foo] is unknown, and the entry is
    in the table all the same. *)
Lemma C7_witness_unknown_trigger :
  parse_token "Foo=Escape" =
  Some {| UseKeyCode := false; from_ks := NoSymbol; from_kc := 0;
          to_keys := [kc_Escape]; used := false; pressed := false; mouse := false;
          down_at := Timeval 0 0 |}.
Proof.
  refine (proj1 (C7_unresolved_trigger_is_kept
                   "Foo=Escape" "Foo" "Escape" [kc_Escape] _ _ _));
    reflexivity.
Defined.

(** Of five entries, the one without [=] and the one with an unknown
    substitute are passed over; the two with an unresolved trigger are linked
    in with the zeroed trigger fields. *)
Example parse_mapping_keeps_unresolved_triggers :
  parse_mapping "Foo=Escape;bar;Control_L=Escape;Escape=Nope;#999=a" =
  [ KeyMap false NoSymbol 0 [kc_Escape] false false false (Timeval 0 0);
    KeyMap false XK_Control_L 0 [kc_Escape] false false false (Timeval 0 0);
    KeyMap false NoSymbol 0 [kc_a] false false false (Timeval 0 0) ].
Proof. reflexivity. Qed.

(** The rule [Super_L=Control_L|Escape], pressed at 0 and released at
    100 ms. *)
Lemma C8_witness_chord :
  (handle_key (self (started "Super_L=Control_L|Escape"))
     (KeyMap false XK_Super_L 0 [kc_Control_L; kc_Escape] false true false (Timeval 0 0))
     false KeyRelease (Timeval 0 100000)).2
  = [XTestFakeKeyEvent kc_Control_L true; XTestFakeKeyEvent kc_Escape true;
     XTestFakeKeyEvent kc_Control_L false; XTestFakeKeyEvent kc_Escape false;
     XFlush].
Proof.
  refine (proj1 (C8_single_flush_after_release_pass _ _ _ _ _ _ _ _));
    [discriminate | reflexivity | reflexivity].
Defined.

(** The same tap: the request that follows the press pass is the first
    release, not a flush, and the trace holds one flush, not two. *)
Lemma C8_counterexample_no_flush_between_passes :
  let out :=
    (handle_key (self (started "Super_L=Control_L|Escape"))
       (KeyMap false XK_Super_L 0 [kc_Control_L; kc_Escape] false true false (Timeval 0 0))
       false KeyRelease (Timeval 0 100000)).2 in
  out !! 2%nat = Some (XTestFakeKeyEvent kc_Control_L false)
  /\ out <> [XTestFakeKeyEvent kc_Control_L true; XTestFakeKeyEvent kc_Escape true;
             XFlush;
             XTestFakeKeyEvent kc_Control_L false; XTestFakeKeyEvent kc_Escape false;
             XFlush]
  /\ flushes out = 1%nat.
Proof. by vm_compute. Qed.

(** Control_L is held; a second [KeyPress] for it arrives at 300 ms. *)
Lemma C9_witness_second_press :
  let w := state_after (started "Control_L=Escape") [(key_press kc_Control_L, at_ms 0)] in
  let km := KeyMap false XK_Control_L 0 [kc_Escape] false true false (Timeval 0 0) in
  exists km',
    map (self (state_after w [(key_press kc_Control_L, at_ms 300)])) !! 0%nat = Some km'
    /\ pressed km' = true
    /\ down_at km' = gettimeofday (at_ms 300) 0
    /\ used km' = used km
    /\ forall rel env_r,
         release_event 0 (state_after w [(key_press kc_Control_L, at_ms 300)]) rel = true ->
         rule_requests (state_after w [(key_press kc_Control_L, at_ms 300)]) rel env_r 0 =
         if negb (used km)
            && timercmp_lt (timersub (gettimeofday env_r 0) (gettimeofday (at_ms 300) 0))
                 default_timeout
         then tap_requests (to_keys km) else [].
Proof.
  refine (C9_repeated_press_restarts_the_clock
            (parse_mapping "Control_L=Escape") default_timeout 0 0
            [(key_press kc_Control_L, at_ms 0)] _ 0 _
            (key_press kc_Control_L) (at_ms 300) _ _ _ _ _);
    reflexivity.
Defined.

(** The release at 600 ms is within the timeout of the second press, not of
    the first: the substitute is injected. *)
Example release_timed_from_latest_press :
  (run (started "Control_L=Escape")
     [(key_press kc_Control_L, at_ms 0); (key_press kc_Control_L, at_ms 300);
      (key_release kc_Control_L, at_ms 600)]).2
  = [XkbGetState; XkbLockGroup 0; XkbGetState;
     XkbGetState; XkbLockGroup 0; XkbGetState;
     XkbGetState; XTestFakeKeyEvent kc_Escape true; XTestFakeKeyEvent kc_Escape false;
     XFlush; XkbLockGroup 0; XkbGetState].
Proof. reflexivity. Qed.

(** With [9; 9] in the ledger, a [ButtonPress] of button 9 is dropped exactly
    like a [KeyRelease] of key 9. *)
Lemma C10_witness_button_nine :
  let w := state_after (started "Control_L=Escape")
             [(key_press kc_Control_L, at_ms 0); (key_release kc_Control_L, at_ms 100)] in
  intercept w (InterceptData XRecordFromServer ButtonPress 9) (at_ms 150)
    = intercept w (InterceptData XRecordFromServer KeyRelease 9) (at_ms 200)
  /\ (let r := intercept w (InterceptData XRecordFromServer ButtonPress 9) (at_ms 150) in
      S (length (generated (self r.1))) = length (generated (self w))
      /\ map (self r.1) = map (self w)
      /\ mouse_pressed r.1 = mouse_pressed w
      /\ intended_group (self r.1) = intended_group (self w)
      /\ previous_group (self r.1) = previous_group (self w)
      /\ r.2 = [XkbGetState]).
Proof.
  refine (C10_ledger_match_ignores_event_type _ 9 ButtonPress KeyRelease _ _ _).
  repeat constructor.
Defined.

End Examples.

(** * Further properties of the event path *)

Lemma fake_codes_app a b : fake_codes (a ++ b) = fake_codes a ++ fake_codes b.
Proof.
  induction a as [|r a IH]; [done |].
  destruct r; simpl; by rewrite IH.
Qed.

Lemma fake_codes_tap keys : fake_codes (tap_requests keys) = keys ++ keys.
Proof.
  unfold tap_requests. rewrite !fake_codes_app. simpl. rewrite app_nil_r.
  assert (E : forall b, fake_codes ((fun k => XTestFakeKeyEvent k b) <$> keys) = keys).
  { intros b. induction keys as [|k keys IH]; [done |]. simpl. f_equal. exact IH. }
  by rewrite !E.
Qed.

Section MoreEngine.

Context `{Xlib}.

(** What a pass of the loop issues: nothing, or the requests of a tap. *)
Lemma rule_step_cases env mp ke kc pos s km :
  (rule_step env mp ke kc pos s km).2 = []
  /\ generated (rule_step env mp ke kc pos s km).1.1 = generated s
  \/ (rule_step env mp ke kc pos s km).2 = tap_requests (to_keys km)
     /\ generated (rule_step env mp ke kc pos s km).1.1
        = generated s ++ to_keys km ++ to_keys km
     /\ is_trigger km kc = true /\ ke <> KeyPress /\ used km = false
     /\ timercmp_lt (timersub (gettimeofday env pos) (down_at km)) (timeout s) = true.
Proof.
  unfold rule_step. destruct (is_trigger km kc) eqn:Ht.
  - destruct (Z.eqb_spec ke KeyPress) as [->|Hne].
    + left. by rewrite handle_key_press.
    + rewrite handle_key_release by done.
      destruct (used km) eqn:Hu; simpl; [by left |].
      destruct (timercmp_lt _ _) eqn:Hc; [| by left].
      right. by split_and!.
  - left. by destruct (pressed km && _).
Qed.

Lemma rule_loop_ledger env mp ke kc m :
  forall pos s,
    generated (rule_loop env mp ke kc pos s m).1.1
    = generated s ++ fake_codes (rule_loop env mp ke kc pos s m).2.
Proof.
  induction m as [|km m IH]; intros pos s; simpl.
  - by rewrite app_nil_r.
  - pose proof (rule_step_cases env mp ke kc pos s km) as Hstep.
    destruct (rule_step env mp ke kc pos s km) as [[s1 km'] out1].
    specialize (IH (S pos) s1).
    destruct (rule_loop env mp ke kc (S pos) s1 m) as [[s2 m'] out2].
    simpl in *. rewrite IH, fake_codes_app, app_assoc. f_equal.
    destruct Hstep as [[-> ->] | (-> & -> & _)]; simpl.
    + by rewrite app_nil_r.
    + by rewrite fake_codes_tap.
Qed.

(** X1.  A callback that is not cut short by a ledger match appends to the
    ledger exactly the key codes of the fake key events it issues, in the
    order in which it issues them, and takes nothing out. *)
Theorem X1_ledger_records_every_injection
    (w : World) (data : XRecordInterceptData) (env : Env) :
  (category data = XRecordFromServer -> data1 data ∉ generated (self w)) ->
  generated (self (intercept w data env).1)
  = generated (self w) ++ fake_codes (intercept w data env).2.
Proof.
  intros Hnot. unfold intercept.
  destruct (Z.eqb_spec (category data) XRecordFromServer) as [Hc|Hc].
  - apply Hnot, consume_None in Hc. rewrite Hc.
    pose proof (rule_loop_ledger env (mouse_pressed_after w data) (data0 data)
                  (data1 data) (map (self w)) 0%nat (self w)) as Hloop.
    destruct (rule_loop _ _ _ _ _ _ _) as [[s1 m'] out].
    simpl in *. rewrite fake_codes_app. simpl. by rewrite app_nil_r.
  - simpl. by rewrite app_nil_r.
Qed.

(** X2.  When the ledger begins with the codes of the next server events, in
    their order of arrival, these events are all dropped: each takes out the
    entry at the head, the rules, the mouse flag and the group fields stay as
    they are, and each callback issues only the group query at its entry. *)
Theorem X2_echoes_in_order_drain_the_ledger
    (w : World) (echoes : list (XRecordInterceptData * Env)) (later : list KeyCode) :
  Forall (fun de : XRecordInterceptData * Env => category de.1 = XRecordFromServer)
    echoes ->
  generated (self w) = ((fun de : XRecordInterceptData * Env => data1 de.1) <$> echoes)
                       ++ later ->
  run w echoes =
  (MkWorld (set_generated (self w) later) (mouse_pressed w),
   (fun _ => XkbGetState) <$> echoes).
Proof.
  intros Hall. revert w. induction Hall as [|[d e] echoes Hc _ IH]; intros w Hg.
  - simpl in *. rewrite <- Hg. by destruct w as [[] ?].
  - simpl in Hc, Hg. simpl.
    rewrite (intercept_consumed w d e
               (((fun de : XRecordInterceptData * Env => data1 de.1) <$> echoes) ++ later));
      [| done | by rewrite Hg; simpl; rewrite Z.eqb_refl].
    rewrite IH by done. done.
Qed.

End MoreEngine.

Section TableAndFlags.

Context `{Xlib}.

Lemma elem_of_concat {A} (x : A) (ls : list (list A)) :
  x ∈ concat ls <-> exists l, l ∈ ls /\ x ∈ l.
Proof.
  rewrite list_elem_of_In, in_concat.
  split; intros (l & H1 & H2); exists l; by rewrite ?list_elem_of_In in *.
Qed.

Lemma along_always w inputs : along (fun _ _ => true) w inputs = true.
Proof.
  revert w. induction inputs as [|[d e] rest IH]; intros w; [done |].
  simpl. apply IH.
Qed.

Lemma rule_next_mouse env mp ke kc pos km :
  mouse (rule_next env mp ke kc pos km) = mouse km.
Proof.
  unfold rule_next.
  repeat match goal with |- context [if ?b then _ else _] => destruct b end; done.
Qed.

Lemma intercept_table_length w data env :
  length (map (self (intercept w data env).1)) = length (map (self w)).
Proof.
  destruct (delivered w data) eqn:Hd.
  - destruct (intercept_delivered w data env Hd) as [added E].
    simpl in E. rewrite E. simpl. apply length_imap.
  - by destruct (intercept_not_delivered w data env Hd) as [-> _].
Qed.

(** X3.  Whatever is delivered, the callback never rewrites the table: the
    number of rules, the timeout, and each rule's trigger, substitutes and
    [mouse] field are after any sequence of callbacks what they were
    before. *)
Theorem X3_table_is_never_rewritten
    (w : World) (inputs : list (XRecordInterceptData * Env)) :
  length (map (self (state_after w inputs))) = length (map (self w))
  /\ timeout (self (state_after w inputs)) = timeout (self w)
  /\ forall i km,
       map (self w) !! i = Some km ->
       exists km',
         map (self (state_after w inputs)) !! i = Some km'
         /\ same_rule km km' /\ mouse km' = mouse km.
Proof.
  split_and!.
  - unfold state_after. revert w.
    induction inputs as [|[d e] rest IH]; intros w; [done |].
    by rewrite run_cons, IH, intercept_table_length.
  - apply state_after_timeout.
  - intros i km Hi.
    destruct (along_rule_invariant (fun _ _ => true)
                (fun k => same_rule km k /\ mouse k = mouse km) i) with
      (inputs := inputs) (w := w) (km := km) as (km' & Hk & [Hs Hm] & _);
      [| done | by split; [apply same_rule_refl |] | apply along_always |].
    + intros w0 d e k _ [Hs Hm] _ _. split.
      * eapply same_rule_trans; [done | apply rule_next_same].
      * by rewrite rule_next_mouse.
    + by exists km'.
Qed.

(** X4.  A fake key event appears in the trace of a callback only if the
    event was delivered to the rule loop, is not a [KeyPress], and passes the
    trigger test of a rule whose [used] flag is clear and whose [down_at]
    lies less than the timeout back; the injected code is one of that
    rule's substitutes.  So a [KeyPress], an event dropped by the ledger scan
    and a callback of another category never inject. *)
Theorem X4_injection_only_on_release_of_unused_rule
    (w : World) (data : XRecordInterceptData) (env : Env) (k : KeyCode) (b : bool) :
  XTestFakeKeyEvent k b ∈ (intercept w data env).2 ->
  delivered w data = true
  /\ data0 data <> KeyPress
  /\ exists i km,
       map (self w) !! i = Some km
       /\ is_trigger km (data1 data) = true
       /\ used km = false
       /\ timercmp_lt (timersub (gettimeofday env i) (down_at km)) (timeout (self w))
          = true
       /\ k ∈ to_keys km.
Proof.
  intros Hin. destruct (delivered w data) eqn:Hd.
  - rewrite intercept_trace in Hin by done. unfold passes_trace in Hin.
    rewrite elem_of_cons, elem_of_app in Hin.
    destruct Hin as [? | [Hin | Hin]]; [done | |].
    + apply elem_of_concat in Hin as (out & Hout & Hin).
      apply list_elem_of_fmap in Hout as (i & -> & _).
      unfold rule_requests in Hin.
      destruct (map (self w) !! i) as [km|] eqn:Hi; [| by apply elem_of_nil in Hin].
      destruct (rule_step_cases env (mouse_pressed_after w data) (data0 data)
                  (data1 data) i (self w) km)
        as [[E _] | (E & _ & Ht & Hne & Hu & Hc)];
        rewrite E in Hin; [by apply elem_of_nil in Hin |].
      split; [done |]. split; [done |]. exists i, km. split_and!; try done.
      by eapply tap_requests_codes.
    + rewrite !elem_of_cons in Hin. destruct Hin as [? | [? | Hin]]; [done | done |].
      by apply elem_of_nil in Hin.
  - exfalso. unfold delivered in Hd. revert Hin.
    destruct (Z.eqb_spec (category data) XRecordFromServer) as [Hc|Hc].
    + destruct (consume (data1 data) (generated (self w))) as [rest|] eqn:Hg; [| done].
      rewrite (intercept_consumed _ _ _ rest) by done. simpl.
      intros Hin. by apply list_elem_of_singleton in Hin.
    + rewrite intercept_other_category by done. simpl.
      rewrite !elem_of_cons. intros [? | [? | [? | Hin]]]; [done | done | done |].
      by apply elem_of_nil in Hin.
Qed.

(** X5.  A release is judged on [used] and [down_at] alone, and a release
    clears [used] but leaves [down_at]: when the next event of a rule's
    trigger after a release event is a release event again, less than the
    timeout after the press recorded in [down_at], the rule injects its
    substitutes on it, although it was not pressed in between. *)
Theorem X5_second_release_injects_again
    (w : World) (i : nat) (km : KeyMap_t)
    (rel1 rel2 : XRecordInterceptData) (env1 env2 : Env)
    (mids : list (XRecordInterceptData * Env)) :
  map (self w) !! i = Some km ->
  release_event i w rel1 = true ->
  along (no_trigger_event_for i) (state_after w [(rel1, env1)]) mids = true ->
  release_event i (state_after w ((rel1, env1) :: mids)) rel2 = true ->
  normalized (gettimeofday env2 i) ->
  normalized (down_at km) ->
  normalized (timeout (self w)) ->
  to_usec (gettimeofday env2 i) - to_usec (down_at km) < to_usec (timeout (self w)) ->
  rule_requests (state_after w ((rel1, env1) :: mids)) rel2 env2 i
  = tap_requests (to_keys km).
Proof.
  intros Hi Hrel1 Hal Hrel2 Nn Nd Nt Hlt.
  apply (release_event_true _ _ _ _ Hi) in Hrel1 as (Hd1 & Ht1 & Hne1).
  destruct (intercept_rule w rel1 env1 i km Hi) as (Hi1 & Hto1 & _).
  rewrite Hd1 in Hi1. unfold rule_next in Hi1. rewrite Ht1 in Hi1.
  destruct (Z.eqb_spec (data0 rel1) KeyPress) as [|_]; [done |].
  rewrite <- state_after_one in Hi1, Hto1.
  set (k1 := set_rule_state km false false (down_at km)) in *.
  destruct (along_rule_invariant (no_trigger_event_for i)
              (fun k => same_rule km k /\ down_at k = down_at km /\ used k = false
                        /\ pressed k = false) i) with
    (inputs := mids) (w := state_after w [(rel1, env1)]) (km := k1)
    as (k2 & Hk2 & (Hs & Hdn & Hu & Hp) & Hto2); [| done | by repeat split | done |].
  { clear. intros w d e k Hk (Hs & Hdn & Hu & Hp) HP Hd.
    unfold no_trigger_event_for in HP. apply negb_true_iff in HP.
    split; [eapply same_rule_trans; [done | apply rule_next_same] |].
    unfold rule_next. destruct (is_trigger k (data1 d)) eqn:Ht.
    - exfalso. assert (trigger_event i w d = true); [| congruence].
      by apply (trigger_event_true _ _ _ _ Hk).
    - by rewrite Hp. }
  rewrite <- state_after_cons in Hk2, Hto2.
  apply (release_event_true _ _ _ _ Hk2) in Hrel2 as (_ & Ht2 & Hne2).
  rewrite (rule_requests_release _ _ _ _ _ Hk2 Ht2 Hne2).
  destruct Hs as (_ & _ & _ & ->).
  rewrite Hu, Hdn, Hto2, Hto1, elapsed_test by done.
  by rewrite (proj2 (Z.ltb_lt _ _) Hlt).
Qed.

(** X6.  The elapsed time is the difference of two readings of the wall
    clock.  If the clock does not read later at the release than it did at
    the press (it was set back, or both readings are the same), the release
    of an unused rule counts as a tap under every positive timeout, however
    long the key was held. *)
Theorem X6_clock_set_back_counts_as_tap
    (s : XCape_t) (key : KeyMap_t) (mouse_pressed : bool) (key_event : Z)
    (now : timeval) :
  key_event <> KeyPress ->
  used key = false ->
  normalized now -> normalized (down_at key) -> normalized (timeout s) ->
  to_usec now <= to_usec (down_at key) ->
  0 < to_usec (timeout s) ->
  (handle_key s key mouse_pressed key_event now).2 = tap_requests (to_keys key).
Proof.
  intros Hne Hu Nn Nd Nt Hback Hpos.
  rewrite handle_key_release by done. rewrite Hu, elapsed_test by done.
  assert (E : (to_usec now - to_usec (down_at key) <? to_usec (timeout s)) = true)
    by (apply Z.ltb_lt; lia).
  by rewrite E.
Qed.

End TableAndFlags.

Section GroupAndMouse.

Context `{Xlib}.

Lemma lock_group_in_trace w data env g :
  XkbLockGroup g ∈ (intercept w data env).2 ->
  g = intended_group (self (intercept w data env).1).
Proof.
  destruct (delivered w data) eqn:Hd.
  - rewrite (intercept_trace w data env Hd). unfold passes_trace.
    rewrite elem_of_cons, elem_of_app.
    intros [? | [Hin | Hin]]; [done | |].
    + exfalso. apply elem_of_concat in Hin as (out & Hout & Hin).
      apply list_elem_of_fmap in Hout as (i & -> & _).
      unfold rule_requests in Hin.
      destruct (map (self w) !! i) as [km|]; [| by apply elem_of_nil in Hin].
      destruct (rule_step_cases env (mouse_pressed_after w data) (data0 data)
                  (data1 data) i (self w) km) as [[E _] | (E & _)];
        rewrite E in Hin; [by apply elem_of_nil in Hin |].
      unfold tap_requests in Hin. rewrite !elem_of_app, !list_elem_of_fmap in Hin.
      destruct Hin as [(? & ? & _) | [(? & ? & _) | Hin]]; [done | done |].
      by apply list_elem_of_singleton in Hin.
    + rewrite !elem_of_cons in Hin. destruct Hin as [[= ->] | [? | Hin]]; [done | done |].
      by apply elem_of_nil in Hin.
  - unfold delivered in Hd.
    destruct (Z.eqb_spec (category data) XRecordFromServer) as [Hc|Hc].
    + destruct (consume (data1 data) (generated (self w))) as [rest|] eqn:Hg; [| done].
      rewrite (intercept_consumed _ _ _ rest) by done. simpl.
      intros Hin. by apply list_elem_of_singleton in Hin.
    + rewrite intercept_other_category by done. simpl.
      rewrite !elem_of_cons. intros [? | [[= ->] | [? | Hin]]]; [done | done | done |].
      by apply elem_of_nil in Hin.
Qed.

Lemma intended_group_kept w data env :
  group_at_entry env = previous_group (self w) ->
  intended_group (self (intercept w data env).1) = intended_group (self w).
Proof.
  intros Hg. destruct (delivered w data) eqn:Hd.
  - destruct (intercept_delivered w data env Hd) as [added E].
    simpl in E. rewrite E. simpl. by rewrite Hg, Z.eqb_refl.
  - unfold delivered in Hd.
    destruct (Z.eqb_spec (category data) XRecordFromServer) as [Hc|Hc].
    + destruct (consume (data1 data) (generated (self w))) as [rest|] eqn:Hr; [| done].
      by rewrite (intercept_consumed _ _ _ rest).
    + rewrite intercept_other_category by done. simpl. by rewrite Hg, Z.eqb_refl.
Qed.

(** X7.  As long as every callback finds at its entry the group the program
    stored last, the intended group never changes and it is the only group
    the program ever asserts, also when the group the server reports after
    [XkbLockGroup] is not the one asserted. *)
Theorem X7_intended_group_kept_while_undisturbed
    (w : World) (inputs : list (XRecordInterceptData * Env)) :
  group_undisturbed w inputs = true ->
  intended_group (self (state_after w inputs)) = intended_group (self w)
  /\ forall g, XkbLockGroup g ∈ (run w inputs).2 -> g = intended_group (self w).
Proof.
  unfold state_after. revert w.
  induction inputs as [|[d e] rest IH]; intros w Hu.
  - split; [done |]. intros g Hin. by apply elem_of_nil in Hin.
  - simpl in Hu. apply andb_true_iff in Hu as [Hg Hu]. apply Z.eqb_eq in Hg.
    destruct (IH _ Hu) as [IH1 IH2].
    pose proof (intended_group_kept w d e Hg) as Hk.
    pose proof (lock_group_in_trace w d e) as Hl.
    rewrite run_cons. simpl.
    destruct (intercept w d e) as [w1 o1]. simpl in *.
    destruct (run w1 rest) as [w2 o2]. simpl in *.
    split; [congruence |].
    intros g [Hin|Hin]%elem_of_app; [rewrite <- Hk; by apply Hl |].
    rewrite <- Hk. by apply IH2.
Qed.

Lemma mouse_flag_kept w data env :
  no_button_event w data = true ->
  mouse_pressed (intercept w data env).1 = mouse_pressed w.
Proof.
  unfold no_button_event. intros Hn. destruct (delivered w data) eqn:Hd.
  - simpl in Hn. apply negb_true_iff, orb_false_iff in Hn as [Hp Hr].
    destruct (intercept_delivered w data env Hd) as [added E].
    simpl in E. rewrite E. simpl. unfold mouse_pressed_after. by rewrite Hp, Hr.
  - by destruct (intercept_not_delivered w data env Hd) as [_ ->].
Qed.

(** X8.  The mouse flag is one boolean, not a count of held buttons: after a
    delivered button event, and until the next delivered button event, it is
    true if that event was a [ButtonPress] and false if it was a
    [ButtonRelease], whatever the flag was before and whichever button the
    event names. *)
Theorem X8_mouse_flag_follows_last_button_event
    (w : World) (data : XRecordInterceptData) (env : Env)
    (rest : list (XRecordInterceptData * Env)) :
  delivered w data = true ->
  is_button data = true ->
  along no_button_event (state_after w [(data, env)]) rest = true ->
  mouse_pressed (state_after w ((data, env) :: rest)) = (data0 data =? ButtonPress).
Proof.
  intros Hd Hb Hal.
  assert (H1 : mouse_pressed (state_after w [(data, env)]) = (data0 data =? ButtonPress)).
  { rewrite state_after_one.
    destruct (intercept_delivered w data env Hd) as [added E].
    simpl in E. rewrite E. simpl. unfold mouse_pressed_after, is_button in *.
    destruct (data0 data =? ButtonPress); [done |].
    simpl in Hb. by rewrite Hb. }
  rewrite state_after_cons, <- H1. clear H1 Hd Hb.
  revert Hal. generalize (state_after w [(data, env)]). clear.
  induction rest as [|[d e] rest IH]; intros w Hal; [done |].
  simpl in Hal. apply andb_true_iff in Hal as [Hn Hal].
  rewrite run_cons, IH by done. by apply mouse_flag_kept.
Qed.

End GroupAndMouse.

(** X9.  Recording a code and then scanning for it: when the ledger held no
    entry for the code, the scan takes out the entry just appended and the
    ledger is as before; when it held one, the scan takes out the oldest of
    them and the new entry stays at the tail. *)
Theorem X9_record_then_consume (g : list KeyCode) (k : KeyCode) :
  consume k (key_add_key g k) =
  Some match consume k g with
       | Some g' => key_add_key g' k
       | None => g
       end.
Proof.
  unfold key_add_key. induction g as [|x g IH]; simpl.
  - by rewrite Z.eqb_refl.
  - destruct (x =? k); [done |]. rewrite IH. by destruct (consume k g).
Qed.

(** * Further properties of the parser and of [main] *)

Lemma strsep_all_nonempty delim p : strsep_all delim p <> [].
Proof.
  destruct p as [|c p]; simpl; [done |].
  destruct (Ascii.eqb c delim); [done |]. by destruct (strsep_all delim p).
Qed.

Lemma strsep_all_app delim a b :
  strsep_all delim (a +:+ String delim b) = strsep_all delim a ++ strsep_all delim b.
Proof.
  induction a as [|c a IH]; simpl.
  - by rewrite Ascii.eqb_refl.
  - destruct (Ascii.eqb c delim); [by rewrite IH |].
    rewrite IH. pose proof (strsep_all_nonempty delim a).
    by destruct (strsep_all delim a).
Qed.

(** X12.  The token loop loses nothing and invents nothing: the tokens it
    visits, put together with the delimiter between them, are the string it
    was given, and no token contains the delimiter (a token, split again,
    is one token: itself).  In particular two delimiters in a row, a leading
    and a trailing delimiter each give an empty token. *)
Theorem X12_tokens_join_back (delim : Ascii.ascii) (p : string) :
  join_tokens delim (strsep_all delim p) = p
  /\ Forall (fun tok => strsep_all delim tok = [tok]) (strsep_all delim p).
Proof.
  induction p as [|c p [IH1 IH2]]; simpl.
  - split; [done |]. by repeat constructor.
  - destruct (Ascii.eqb_spec c delim) as [->|Hne].
    + pose proof (strsep_all_nonempty delim p).
      split.
      * simpl. destruct (strsep_all delim p); [done |]. simpl in *. by rewrite IH1.
      * by constructor.
    + pose proof (strsep_all_nonempty delim p).
      destruct (strsep_all delim p) as [|tok toks]; [done |]. split.
      * simpl in *. destruct toks; simpl in *; by rewrite <- IH1.
      * inversion IH2 as [|? ? Htok Htoks]; subst. constructor; [| done].
        simpl. destruct (Ascii.eqb_spec c delim); [done |]. by rewrite Htok.
Qed.

Section MoreParser.

Context `{Xlib} `{Libc}.

(** X11.  The table of two mapping strings joined by [;] is the table of the
    first followed by the table of the second: entries are parsed one by one,
    in order, and an entry that is passed over or kept has no effect on the
    entries around it. *)
Theorem X11_parse_mapping_of_joined_strings (a b : string) :
  parse_mapping (a +:+ String ";"%char b) = parse_mapping a ++ parse_mapping b.
Proof. unfold parse_mapping. by rewrite strsep_all_app, link_tokens_app. Qed.

Lemma substitute_code_valid key c :
  substitute_code key = Some c ->
  (c <> 0 /\ exists name,
      XStringToKeysym name <> NoSymbol /\ c = XKeysymToKeycode (XStringToKeysym name))
  \/ (0 <= c <= 255 /\ XkbKeycodeToKeysym c <> NoSymbol).
Proof.
  assert (Hname : (let ks := XStringToKeysym key in
                   if ks =? NoSymbol then None
                   else let code := XKeysymToKeycode ks in
                        if code =? 0 then None else Some code) = Some c ->
                  c <> 0 /\ exists name,
                    XStringToKeysym name <> NoSymbol
                    /\ c = XKeysymToKeycode (XStringToKeysym name)).
  { simpl. destruct (Z.eqb_spec (XStringToKeysym key) NoSymbol) as [|Hks]; [done |].
    destruct (Z.eqb_spec (XKeysymToKeycode (XStringToKeysym key)) 0) as [|Hc]; [done |].
    intros [= <-]. split; [done |]. by exists key. }
  unfold substitute_code. destruct key as [|ch key]; [by left; apply Hname |].
  destruct (Ascii.ascii_dec ch "#"%char) as [->|Hch].
  - destruct (strtoul key) as [u errno].
    destruct (valid_keycode (long_of_ulong u) errno) eqn:Hv; [| done].
    intros [= <-]. right. unfold valid_keycode in Hv.
    apply andb_true_iff in Hv as [_ Hv]. apply negb_true_iff, Z.eqb_neq in Hv.
    split; [| done]. unfold KeyCode_of_long.
    pose proof (Z.mod_pos_bound (long_of_ulong u) 256). lia.
  - intros E. left. apply Hname. revert E.
    destruct ch as [[] [] [] [] [] [] [] []]; try done.
Qed.

Lemma parse_token_substitutes token km :
  parse_token token = Some km ->
  exists from to codes,
    strsep "="%char token = (from, Some to)
    /\ mapM substitute_code (strsep_all "|"%char to) = Some codes
    /\ to_keys km = codes.
Proof.
  unfold parse_token. destruct (strsep "="%char token) as [from [to|]]; [| done].
  intros (codes & Hc & ->)%substitute_loop_spec.
  exists from, to, codes. split_and!; [done | done |]. simpl.
  assert (E : to_keys match from with
                      | String "#"%char from' => keysym_from_keycode from' calloc_KeyMap
                      | _ => keysym_from_string from calloc_KeyMap
                      end = []).
  { assert (Es : to_keys (keysym_from_string from calloc_KeyMap) = []).
    { unfold keysym_from_string. by destruct (_ =? NoSymbol). }
    destruct from as [|ch from]; [done |].
    destruct (Ascii.ascii_dec ch "#"%char) as [->|Hch].
    - unfold keysym_from_keycode. destruct (strtoul from) as [u errno].
      by destruct (valid_keycode _ _).
    - destruct ch as [[] [] [] [] [] [] [] []]; try done. }
  by rewrite E.
Qed.

(** X13.  Every rule of the table has at least one substitute, and every
    substitute is a usable key code: either the non-zero code that
    [XKeysymToKeycode] gives for a keysym name that resolves, or a code
    between 0 and 255 that has a keysym. *)
Theorem X13_parsed_substitutes_are_usable (mapping : string) (km : KeyMap_t) :
  km ∈ parse_mapping mapping ->
  to_keys km <> []
  /\ forall c, c ∈ to_keys km ->
       (c <> 0 /\ exists name,
           XStringToKeysym name <> NoSymbol
           /\ c = XKeysymToKeycode (XStringToKeysym name))
       \/ (0 <= c <= 255 /\ XkbKeycodeToKeysym c <> NoSymbol).
Proof.
  unfold parse_mapping. intros Hin.
  assert (exists token, parse_token token = Some km) as [token Htok].
  { induction (strsep_all ";"%char mapping) as [|t ts IH]; simpl in Hin.
    - by apply elem_of_nil in Hin.
    - destruct (parse_token t) as [nkm|] eqn:E; [| by apply IH].
      apply elem_of_cons in Hin as [->|Hin]; [by exists t | by apply IH]. }
  apply parse_token_substitutes in Htok as (from & to & codes & _ & Hc & ->).
  split.
  - apply length_mapM in Hc. pose proof (strsep_all_nonempty "|"%char to).
    destruct (strsep_all "|"%char to); [done |]. by destruct codes.
  - intros c Hcin. apply mapM_Some_1 in Hc.
    apply list_elem_of_lookup in Hcin as [j Hj].
    destruct (Forall2_lookup_r _ _ _ _ _ Hc Hj) as (key & _ & Hkey).
    by eapply substitute_code_valid.
Qed.

(** X14.  Parser and trigger test together.  A rule parsed from an entry
    whose trigger is [#] and a code that passes the key code test matches
    that key code and no other; a rule parsed from an entry whose trigger is
    a name that resolves matches every key code whose keysym is the keysym
    of the name, be it one code, several, or none. *)
Theorem X14_parsed_trigger_matches (token from to : string) (km : KeyMap_t) :
  strsep "="%char token = (from, Some to) ->
  trigger_resolves from = true ->
  parse_token token = Some km ->
  match from with
  | String "#"%char from' =>
      forall c,
        is_trigger km c = (c =? KeyCode_of_long (long_of_ulong (strtoul from').1))
  | _ =>
      forall c, is_trigger km c = (XkbKeycodeToKeysym c =? XStringToKeysym from)
  end.
Proof.
  intros E Hres. unfold parse_token. rewrite E.
  intros (codes & _ & ->)%substitute_loop_spec.
  assert (Hs : forall c,
             is_trigger
               (set_from (keysym_from_string from calloc_KeyMap)
                  (UseKeyCode (keysym_from_string from calloc_KeyMap))
                  (from_ks (keysym_from_string from calloc_KeyMap))
                  (from_kc (keysym_from_string from calloc_KeyMap))
                  (to_keys (keysym_from_string from calloc_KeyMap) ++ codes)) c
             = (XkbKeycodeToKeysym c =? XStringToKeysym from)).
  { intros c. unfold is_trigger, keysym_from_string.
    destruct (XStringToKeysym from =? NoSymbol) eqn:Hn; simpl.
    - apply Z.eqb_eq in Hn. rewrite Hn. by rewrite orb_false_r.
    - by rewrite orb_false_r. }
  unfold trigger_resolves in Hres.
  destruct from as [|ch from]; [exact Hs |].
  destruct (Ascii.ascii_dec ch "#"%char) as [->|Hch].
  - intros c. unfold is_trigger, keysym_from_keycode.
    destruct (strtoul from) as [u errno]. simpl. rewrite Hres. simpl. done.
  - destruct ch as [[] [] [] [] [] [] [] []]; try exact Hs. done.
Qed.

(** X15.  The key code test compares a [long] that was assigned from
    [strtoul]'s [unsigned long]: a value from [2^63] on is negative there,
    passes [parsed_code <= 255], and the cast to [KeyCode] keeps its low
    eight bits.  So [#-1], for which [strtoul] returns [ULONG_MAX], is taken
    for key code 255 whenever that code has a keysym. *)
Theorem X15_huge_code_wraps_to_low_byte (key : string) (u : Z) :
  strtoul key = (u, 0) ->
  2 ^ 63 <= u < 2 ^ 64 ->
  XkbKeycodeToKeysym (u mod 256) <> NoSymbol ->
  substitute_code (String "#"%char key) = Some (u mod 256).
Proof.
  intros E Hu Hks. unfold substitute_code. rewrite E.
  assert (El : long_of_ulong u = u - 2 ^ 64).
  { unfold long_of_ulong. destruct (Z.ltb_spec u (2 ^ 63)); [lia | done]. }
  assert (Ek : KeyCode_of_long (long_of_ulong u) = u mod 256).
  { unfold KeyCode_of_long. rewrite El.
    replace (u - 2 ^ 64) with (u + (- 2 ^ 56) * 256) by lia.
    apply Z_mod_plus_full. }
  unfold valid_keycode. rewrite Ek.
  assert ((long_of_ulong u <=? 255) = true) as -> by (apply Z.leb_le; lia).
  apply Z.eqb_neq in Hks. rewrite Hks. simpl. done.
Qed.

End MoreParser.

Section MainFacts.

Context `{Xlib} `{Libc} `{LibcAtoi}.

(** X10.  In every state the callback can reach from a parsed table, a rule
    that is not pressed has a clear [used] flag, and while the mouse flag is
    set every pressed rule is marked used. *)
Theorem X10_rule_flags_in_reachable_states
    (mapping : string) (t : timeval) (group previous : Z)
    (inputs : list (XRecordInterceptData * Env)) (i : nat) (km : KeyMap_t) :
  map (self (state_after (startup (parse_mapping mapping) t group previous) inputs)) !! i
    = Some km ->
  (pressed km = false -> used km = false)
  /\ (mouse_pressed (state_after (startup (parse_mapping mapping) t group previous) inputs)
        = true ->
      pressed km = true -> used km = true).
Proof.
  intros Hi. split.
  - apply (idle_means_unused_reachable (parse_mapping mapping) t group previous inputs)
      with (i := i); [| done].
    intros k Hk _. by apply parse_mapping_idle in Hk as [_ ?].
  - intros Hm. by apply (held_means_used_reachable _ t group previous inputs Hm i).
Qed.

Lemma option_loop_ok opts :
  forall o o', options_ok o -> option_loop opts o = inl o' -> options_ok o'.
Proof.
  induction opts as [|[ch optarg] opts IH]; intros o o' Hok; simpl.
  - by intros [= <-].
  - destruct Hok as (Hn & Hp & Hd).
    destruct (Ascii.eqb ch "d"); [apply IH; by split_and! |].
    destruct (Ascii.eqb ch "f"); [apply IH; by split_and! |].
    destruct (Ascii.eqb ch "e"); [apply IH; by split_and! |].
    destruct (Ascii.eqb ch "t"); [| done].
    destruct (Z.ltb_spec 0 (atoi optarg)) as [Hms|]; [| done].
    apply IH. split_and!; simpl; [ | | done].
    + by apply timeout_of_ms_normalized.
    + rewrite timeout_of_ms_usec by done. lia.
Qed.

(** X16.  When [main] gets as far as recording, the callback starts from a
    table with at least one rule, all rules released and unused, an empty
    ledger, a clear mouse flag, the group the server reported as the intended
    group, and a timeout that is normalized and positive; and debug output
    is on only in the foreground. *)
Theorem X16_main_starts_recording_in_a_sound_state
    (opts : list (Ascii.ascii * string)) (setup : Setup)
    (foreground debug : bool) (w : World) :
  main opts setup = Recording foreground debug w ->
  map (self w) <> []
  /\ (forall km, km ∈ map (self w) -> pressed km = false /\ used km = false)
  /\ generated (self w) = []
  /\ mouse_pressed w = false
  /\ intended_group (self w) = server_group setup
  /\ normalized (timeout (self w))
  /\ 0 < to_usec (timeout (self w))
  /\ (debug = true -> foreground = true).
Proof.
  unfold main. destruct (option_loop opts initial_options) as [o|st] eqn:Eo; [| done].
  assert (Hok : options_ok o).
  { eapply option_loop_ok; [| done]. by repeat split. }
  destruct Hok as (Hn & Hp & Hd).
  repeat (match goal with |- context [if ?b then _ else _] => destruct b end; try done).
  pose proof (parse_mapping_idle (opt_mapping o)) as Hidle.
  destruct (parse_mapping (opt_mapping o)) as [|km0 m] eqn:Em; [done |].
  repeat (match goal with |- context [if ?b then _ else _] => destruct b end; try done).
  intros [= <- <- <-]. simpl. split_and!; try done.
Qed.

(** X17.  A [-t] option whose argument [atoi] reads as zero or less ends
    [main] with [EXIT_FAILURE], whatever options follow it and whatever the
    set-up would have found, provided the options before it were accepted. *)
Theorem X17_nonpositive_timeout_is_fatal
    (before after : list (Ascii.ascii * string)) (optarg : string)
    (o : Options) (setup : Setup) :
  option_loop before initial_options = inl o ->
  atoi optarg <= 0 ->
  main (before ++ ("t"%char, optarg) :: after) setup = Exited EXIT_FAILURE.
Proof.
  intros Hb Hms. unfold main.
  assert (E : forall o0,
             option_loop before o0 = inl o ->
             option_loop (before ++ ("t"%char, optarg) :: after) o0 = inr EXIT_FAILURE).
  { clear Hb. induction before as [|[ch a] before IH]; intros o0; simpl.
    - intros _. destruct (Z.ltb_spec 0 (atoi optarg)); [lia | done].
    - destruct (Ascii.eqb ch "d"); [apply IH |].
      destruct (Ascii.eqb ch "f"); [apply IH |].
      destruct (Ascii.eqb ch "e"); [apply IH |].
      destruct (Ascii.eqb ch "t"); [| done].
      destruct (0 <? atoi a); [apply IH | done]. }
  by rewrite (E _ Hb).
Qed.

Lemma option_loop_app before rest :
  forall o0 o,
    option_loop (before ++ rest) o0 = inl o ->
    exists o1, option_loop before o0 = inl o1 /\ option_loop rest o1 = inl o.
Proof.
  induction before as [|[ch a] before IH]; intros o0 o; simpl.
  - intros E. by exists o0.
  - destruct (Ascii.eqb ch "d"); [apply IH |].
    destruct (Ascii.eqb ch "f"); [apply IH |].
    destruct (Ascii.eqb ch "e"); [apply IH |].
    destruct (Ascii.eqb ch "t"); [| done].
    destruct (0 <? atoi a); [apply IH | done].
Qed.

Lemma option_loop_keeps_timeout opts :
  Forall (fun p : Ascii.ascii * string => p.1 <> "t"%char) opts ->
  forall o0 o, option_loop opts o0 = inl o -> opt_timeout o = opt_timeout o0.
Proof.
  induction 1 as [|[ch a] opts Hch _ IH]; intros o0 o; simpl.
  - by intros [= <-].
  - simpl in Hch.
    destruct (Ascii.eqb ch "d"); [intros E; by rewrite (IH _ _ E) |].
    destruct (Ascii.eqb ch "f"); [intros E; by rewrite (IH _ _ E) |].
    destruct (Ascii.eqb ch "e"); [intros E; by rewrite (IH _ _ E) |].
    destruct (Ascii.eqb_spec ch "t"); done.
Qed.

(** X18.  When the option loop accepts the options, the timeout it leaves is
    the argument of the last [-t] option taken as milliseconds: that many
    thousand microseconds, however the argument splits into seconds and a
    remainder. *)
Theorem X18_timeout_is_last_t_in_milliseconds
    (before after : list (Ascii.ascii * string)) (optarg : string) (o : Options) :
  option_loop (before ++ ("t"%char, optarg) :: after) initial_options = inl o ->
  Forall (fun p : Ascii.ascii * string => p.1 <> "t"%char) after ->
  0 < atoi optarg
  /\ to_usec (opt_timeout o) = atoi optarg * 1000
  /\ normalized (opt_timeout o).
Proof.
  intros E Hafter.
  apply option_loop_app in E as (o1 & _ & E). simpl in E.
  destruct (Z.ltb_spec 0 (atoi optarg)) as [Hms|]; [| done].
  apply (option_loop_keeps_timeout _ Hafter) in E. simpl in E. rewrite E.
  split_and!; [done | by apply timeout_of_ms_usec | by apply timeout_of_ms_normalized].
Qed.

End MainFacts.

(** * Worked examples for the further properties *)

Section MoreExamples.

Import Demo DemoMain.

(** The release that completes a tap of Control_L appends [9; 9]. *)
Lemma X1_witness_tap :
  generated (self (intercept
                     (state_after (started "Control_L=Escape")
                        [(key_press kc_Control_L, at_ms 0)])
                     (key_release kc_Control_L) (at_ms 100)).1)
  = generated (self (state_after (started "Control_L=Escape")
                       [(key_press kc_Control_L, at_ms 0)]))
    ++ fake_codes (intercept
                     (state_after (started "Control_L=Escape")
                        [(key_press kc_Control_L, at_ms 0)])
                     (key_release kc_Control_L) (at_ms 100)).2.
Proof.
  refine (X1_ledger_records_every_injection _ _ _ _).
  intros _. apply not_elem_of_nil.
Defined.

(** After a tap under [Control_L=Escape|a] the four echoes arrive in the
    order of injection. *)
Lemma X2_witness_four_echoes :
  let w := state_after (started "Control_L=Escape|a")
             [(key_press kc_Control_L, at_ms 0); (key_release kc_Control_L, at_ms 100)] in
  let echoes := [(key_press kc_Escape, at_ms 101); (key_press kc_a, at_ms 101);
                 (key_release kc_Escape, at_ms 102); (key_release kc_a, at_ms 102)] in
  run w echoes =
  (MkWorld (set_generated (self w) []) (mouse_pressed w),
   (fun _ => XkbGetState) <$> echoes).
Proof.
  refine (X2_echoes_in_order_drain_the_ledger _ _ [] _ _);
    [repeat constructor | reflexivity].
Defined.

(** The trace of a tap of Control_L holds the fake press of Escape. *)
Lemma X4_witness_tap :
  let w := state_after (started "Control_L=Escape") [(key_press kc_Control_L, at_ms 0)] in
  delivered w (key_release kc_Control_L) = true
  /\ data0 (key_release kc_Control_L) <> KeyPress
  /\ exists i km,
       map (self w) !! i = Some km
       /\ is_trigger km (data1 (key_release kc_Control_L)) = true
       /\ used km = false
       /\ timercmp_lt (timersub (gettimeofday (at_ms 100) i) (down_at km))
            (timeout (self w)) = true
       /\ kc_Escape ∈ to_keys km.
Proof.
  refine (X4_injection_only_on_release_of_unused_rule _ _ (at_ms 100) kc_Escape true _).
  vm_compute. repeat constructor.
Defined.

(** Control_L is tapped at 100 ms; a second [KeyRelease] for it at 200 ms,
    with no press in between, injects Escape again. *)
Lemma X5_witness_double_release :
  rule_requests
    (state_after
       (state_after (started "Control_L=Escape") [(key_press kc_Control_L, at_ms 0)])
       [(key_release kc_Control_L, at_ms 100)])
    (key_release kc_Control_L) (at_ms 200) 0
  = [XTestFakeKeyEvent kc_Escape true; XTestFakeKeyEvent kc_Escape false; XFlush].
Proof.
  refine (X5_second_release_injects_again
            (state_after (started "Control_L=Escape") [(key_press kc_Control_L, at_ms 0)]) 0
            (KeyMap false XK_Control_L 0 [kc_Escape] false true false (Timeval 0 0))
            (key_release kc_Control_L) (key_release kc_Control_L)
            (at_ms 100) (at_ms 200) [] _ _ _ _ _ _ _ _);
    try reflexivity; unfold normalized, to_usec; simpl; lia.
Defined.

(** The key went down at second 10 and comes up when the clock reads
    second 3. *)
Lemma X6_witness_clock_set_back :
  (handle_key (self (started "Control_L=Escape"))
     (KeyMap false XK_Control_L 0 [kc_Escape] false true false (Timeval 10 0))
     false KeyRelease (Timeval 3 0)).2
  = [XTestFakeKeyEvent kc_Escape true; XTestFakeKeyEvent kc_Escape false; XFlush].
Proof.
  refine (X6_clock_set_back_counts_as_tap _ _ _ _ _ _ _ _ _ _ _ _);
    try reflexivity; try discriminate; unfold normalized, to_usec; simpl; lia.
Defined.

(** The server answers group 1 after the program has asserted group 0, and
    reports group 1 at the next event: the program keeps asserting group 0. *)
Lemma X7_witness_server_keeps_group_one :
  let w := started "Control_L=Escape" in
  let inputs := [(key_press kc_a, MkEnv 0 1 (fun _ => Timeval 0 0));
                 (key_release kc_a, MkEnv 1 1 (fun _ => Timeval 0 0))] in
  intended_group (self (state_after w inputs)) = intended_group (self w)
  /\ forall g, XkbLockGroup g ∈ (run w inputs).2 -> g = intended_group (self w).
Proof.
  refine (X7_intended_group_kept_while_undisturbed _ _ _). reflexivity.
Defined.

(** Buttons 1 and 3 are pressed, button 3 is released: the flag is clear
    although button 1 is still down. *)
Lemma X8_witness_two_buttons :
  mouse_pressed
    (state_after
       (state_after (started "Control_L=Escape")
          [(button_press 1, at_ms 0); (button_press 3, at_ms 10)])
       [(button_release 3, at_ms 20); (key_press kc_a, at_ms 30)])
  = false.
Proof.
  refine (X8_mouse_flag_follows_last_button_event
            (state_after (started "Control_L=Escape")
               [(button_press 1, at_ms 0); (button_press 3, at_ms 10)])
            (button_release 3) (at_ms 20) [(key_press kc_a, at_ms 30)] _ _ _);
    reflexivity.
Defined.

(** With the flag clear again, a tap of Control_L injects while button 1 is
    held. *)
Example tap_with_a_button_still_held :
  (run (started "Control_L=Escape")
     [(button_press 1, at_ms 0); (button_press 3, at_ms 10);
      (button_release 3, at_ms 20);
      (key_press kc_Control_L, at_ms 30); (key_release kc_Control_L, at_ms 130)]).1
  = MkWorld
      (XCape [KeyMap false XK_Control_L 0 [kc_Escape] false false false (Timeval 0 30000)]
         [kc_Escape; kc_Escape] default_timeout 0 0)
      false.
Proof. reflexivity. Qed.

Lemma X10_witness_pressed_rule :
  let w := state_after (startup (parse_mapping "Control_L=Escape") default_timeout 0 0)
             [(button_press 1, at_ms 0); (key_press kc_Control_L, at_ms 10)] in
  let km := KeyMap false XK_Control_L 0 [kc_Escape] true true false (Timeval 0 10000) in
  (pressed km = false -> used km = false)
  /\ (mouse_pressed w = true -> pressed km = true -> used km = true).
Proof.
  refine (X10_rule_flags_in_reachable_states
            "Control_L=Escape" default_timeout 0 0
            [(button_press 1, at_ms 0); (key_press kc_Control_L, at_ms 10)] 0 _ _).
  reflexivity.
Defined.

Lemma X13_witness_chord_rule :
  let km := KeyMap false XK_Super_L 0 [kc_Control_L; kc_Escape] false false false
              (Timeval 0 0) in
  to_keys km <> []
  /\ forall c, c ∈ to_keys km ->
       (c <> 0 /\ exists name,
           XStringToKeysym name <> NoSymbol
           /\ c = XKeysymToKeycode (XStringToKeysym name))
       \/ (0 <= c <= 255 /\ XkbKeycodeToKeysym c <> NoSymbol).
Proof.
  refine (X13_parsed_substitutes_are_usable "bar;Super_L=Control_L|Escape" _ _).
  vm_compute. repeat constructor.
Defined.

(** [#37=Escape] matches key code 37 only. *)
Lemma X14_witness_keycode_trigger :
  is_trigger (KeyMap true 0 kc_Control_L [kc_Escape] false false false (Timeval 0 0))
    kc_Escape
  = (kc_Escape =? KeyCode_of_long (long_of_ulong (strtoul "37").1)).
Proof.
  refine (X14_parsed_trigger_matches "#37=Escape" "#37" "Escape" _ _ _ _ kc_Escape);
    reflexivity.
Defined.

(** [#-1] as a substitute, on a keyboard where key code 255 has a keysym. *)
Lemma X15_witness_minus_one :
  @substitute_code xlib_255 libc_minus_one "#-1" = Some 255.
Proof.
  refine (@X15_huge_code_wraps_to_low_byte xlib_255 libc_minus_one "-1" (2 ^ 64 - 1)
            _ _ _);
    [reflexivity | lia | discriminate].
Defined.

(** [xcape -d -t 250] with the default mapping. *)
Lemma X16_witness_debug_250ms :
  let w := startup (parse_mapping default_mapping) (timeout_of_ms 250) 0 0 in
  map (self w) <> []
  /\ (forall km, km ∈ map (self w) -> pressed km = false /\ used km = false)
  /\ generated (self w) = []
  /\ mouse_pressed w = false
  /\ intended_group (self w) = server_group all_ok
  /\ normalized (timeout (self w))
  /\ 0 < to_usec (timeout (self w))
  /\ (true = true -> true = true).
Proof.
  refine (X16_main_starts_recording_in_a_sound_state
            [("d"%char, ""); ("t"%char, "250")] all_ok true true _ _).
  reflexivity.
Defined.

(** [xcape -d -t 0 -e a=b]. *)
Lemma X17_witness_timeout_zero :
  main ([("d"%char, "")] ++ ("t"%char, "0") :: [("e"%char, "a=b")]) all_ok
  = Exited EXIT_FAILURE.
Proof.
  refine (X17_nonpositive_timeout_is_fatal [("d"%char, "")] [("e"%char, "a=b")] "0"
            _ all_ok _ _);
    [reflexivity | vm_compute; discriminate].
Defined.

(** [xcape -t 100 -f -t 1500]. *)
Lemma X18_witness_two_timeouts :
  0 < atoi "1500"
  /\ to_usec (Timeval 1 500000) = atoi "1500" * 1000
  /\ normalized (Timeval 1 500000).
Proof.
  refine (X18_timeout_is_last_t_in_milliseconds
            [("t"%char, "100"); ("f"%char, "")] [] "1500"
            (MkOptions true false default_mapping (Timeval 1 500000)) _ _);
    [reflexivity | constructor].
Defined.

(** An empty mapping string, or one in which no entry parses, ends [main]
    with [EXIT_FAILURE]. *)
Example main_without_a_rule_fails :
  main [("e"%char, "")] all_ok = Exited EXIT_FAILURE
  /\ main [("e"%char, "Control_L;=;Escape=Nope")] all_ok = Exited EXIT_FAILURE.
Proof. by vm_compute. Qed.

End MoreExamples.
